(** * huhu-api: the joke repository and its HTTP handlers

    A shallow embedding of [internal/repository/joke.go],
    [internal/handler/jokes.go], [internal/middleware/auth.go],
    [internal/model] and the routing table of [cmd/api/main.go], followed
    by the properties of the service that the specification states.

    Conventions.
    - Go's [int], [int64] and [uint64] are [Z]; where the source relies on
      wrap-around or on a range check it is written out.  [int] has 64
      bits.
    - Go strings are [string] (a sequence of 8-bit [ascii] bytes).
    - A Go result pair [(v, err)] is a sum [error + T]: [inl err] when
      [err != nil], [inr v] otherwise.  [ListJokes] keeps the pair, because
      the nil-ness of the slice it returns matters.
    - [time.Time] is a [Z]: nanoseconds of UTC wall-clock time.  go-sqlite3
      stores and reads back timestamps with nanosecond precision.
    - The database, the wall clock, SQLite's random source and the server
      log are threaded explicitly as a [World]; every repository method is
      a state transformer over it.
    - Of the library packages the source calls ([strconv],
      [encoding/json], [errors], [net/http], chi) the part that the calls
      exercise is modelled after the library's code.
    - A statement fails in the database only on a closed handle or, for
      the INSERT, when no key is left; a request's context is never
      cancelled. *)

From Stdlib Require Import ZArith String Ascii List Bool Lia.
Import ListNotations.

#[local] Set Warnings "-register-all".

Local Open Scope string_scope.
Local Open Scope Z_scope.

(** ** Bytes and strings *)

Definition byte_val (c : ascii) : Z := Z.of_N (N_of_ascii c).

Definition byte_of (z : Z) : ascii := ascii_of_N (Z.to_N z).

Fixpoint len (s : string) : Z :=
  match s with
  | EmptyString => 0
  | String _ r => 1 + len r
  end.

(** ASCII letters folded to upper case, other bytes as they are. *)
Definition to_upper (c : ascii) : ascii :=
  let v := byte_val c in
  if (97 <=? v) && (v <=? 122) then byte_of (v - 32) else c.

Fixpoint fold_ascii (s : string) : string :=
  match s with
  | String c r => String (to_upper c) (fold_ascii r)
  | EmptyString => EmptyString
  end.

(** ** Package [errors] and the error values of the service

    [errors.New] returns a fresh pointer, so two sentinels are equal only
    when they are the same variable; [fmt.Errorf] with a [%w] verb wraps
    its operand, without one it builds a fresh error unrelated to every
    sentinel. *)

Inductive sentinel : Type :=
| ErrJokeNotFound        (* repository.ErrJokeNotFound *)
| ErrNoJokes             (* repository.ErrNoJokes *)
| sql_ErrNoRows          (* database/sql.ErrNoRows *)
| sql_errDBClosed        (* database/sql: "sql: database is closed" *)
| sqlite_FULL.           (* go-sqlite3: SQLITE_FULL *)

Inductive error : Type :=
| Sentinel (s : sentinel)         (* a package-level error variable *)
| Errorf (msg : string)           (* fmt.Errorf without %w *)
| Wrapf (msg : string) (e : error) (* fmt.Errorf(msg + ": %w", e) *)
| LibError (msg : string).        (* an error value built by a library *)

Definition sentinel_eqb (a b : sentinel) : bool :=
  match a, b with
  | ErrJokeNotFound, ErrJokeNotFound
  | ErrNoJokes, ErrNoJokes
  | sql_ErrNoRows, sql_ErrNoRows
  | sql_errDBClosed, sql_errDBClosed
  | sqlite_FULL, sqlite_FULL => true
  | _, _ => false
  end.

(** [errors.Is(err, target)] for a sentinel target: compare, then unwrap. *)
Fixpoint errors_Is (err : error) (target : sentinel) : bool :=
  match err with
  | Sentinel s => sentinel_eqb s target
  | Wrapf _ e => errors_Is e target
  | Errorf _ => false
  | LibError _ => false
  end.

Definition sentinel_text (s : sentinel) : string :=
  match s with
  | ErrJokeNotFound => "joke not found"
  | ErrNoJokes => "no jokes available"
  | sql_ErrNoRows => "sql: no rows in result set"
  | sql_errDBClosed => "sql: database is closed"
  | sqlite_FULL => "database or disk is full"
  end.

(** [err.Error()] *)
Fixpoint error_text (err : error) : string :=
  match err with
  | Sentinel s => sentinel_text s
  | Errorf msg => msg
  | Wrapf msg e => msg ++ ": " ++ error_text e
  | LibError msg => msg
  end.

(** ** Package [strconv] *)

Module strconv.

Inductive NumError : Type := ErrSyntax | ErrRange.

Definition maxUint64 : Z := 2 ^ 64 - 1.

(** The digit loop of [ParseUint] for base 10: [n] is the [uint64]
    accumulator; a non-digit is a syntax error, an overflow of [n * 10] or
    of [n + d] is a range error with value [maxVal]. *)
Fixpoint ParseUint_loop (s : string) (n : Z) : Z * option NumError :=
  match s with
  | EmptyString => (n, None)
  | String c r =>
      let v := byte_val c in
      if (48 <=? v) && (v <=? 57) then
        let d := v - 48 in
        let cutoff := maxUint64 / 10 + 1 in
        if cutoff <=? n then (maxUint64, Some ErrRange)
        else
          let n10 := (n * 10) mod 2 ^ 64 in
          let n1 := (n10 + d) mod 2 ^ 64 in
          if (n1 <? n10) || (maxUint64 <? n1) then (maxUint64, Some ErrRange)
          else ParseUint_loop r n1
      else (0, Some ErrSyntax)
  end.

Definition ParseUint (s : string) : Z * option NumError :=
  match s with
  | EmptyString => (0, Some ErrSyntax)
  | _ => ParseUint_loop s 0
  end.

(** [ParseInt(s, 10, 64)]. *)
Definition ParseInt (s : string) : Z * option NumError :=
  match s with
  | EmptyString => (0, Some ErrSyntax)
  | String c r =>
      let neg := Ascii.eqb c "-" in
      let s1 := if Ascii.eqb c "+" || neg then r else s in
      let '(un, err) := ParseUint s1 in
      match err with
      | Some ErrSyntax => (0, Some ErrSyntax)
      | _ =>
          let cutoff := 2 ^ 63 in
          if negb neg && (cutoff <=? un) then (cutoff - 1, Some ErrRange)
          else if neg && (cutoff <? un) then (- cutoff, Some ErrRange)
          else (if neg then - un else un, None)
      end
  end.

(** The fast path of [Atoi]: no overflow is possible below 19 bytes. *)
Fixpoint Atoi_fast (s : string) (n : Z) : option Z :=
  match s with
  | EmptyString => Some n
  | String c r =>
      let ch := (byte_val c - 48) mod 256 in
      if 9 <? ch then None else Atoi_fast r (n * 10 + ch)
  end.

(** [Atoi] on a platform whose [int] has 64 bits. *)
Definition Atoi (s : string) : Z * option NumError :=
  let sLen := len s in
  if (0 <? sLen) && (sLen <? 19) then
    match s with
    | EmptyString => (0, Some ErrSyntax)
    | String c r =>
        let signed := Ascii.eqb c "-" || Ascii.eqb c "+" in
        let s1 := if signed then r else s in
        if signed && (len s1 <? 1) then (0, Some ErrSyntax)
        else
          match Atoi_fast s1 0 with
          | None => (0, Some ErrSyntax)
          | Some n => (if Ascii.eqb c "-" then - n else n, None)
          end
    end
  else ParseInt s.

(** [FormatInt(i, 10)]: digits are produced from the least significant
    one into a 65-byte buffer, so the loop runs at most 65 times. *)
Fixpoint formatBits (fuel : nat) (u : Z) (a : string) : string :=
  match fuel with
  | O => a
  | S f =>
      if u <? 10 then String (byte_of (48 + u)) a
      else formatBits f (u / 10) (String (byte_of (48 + u mod 10)) a)
  end.

Definition FormatInt (i : Z) : string :=
  if i <? 0 then String "-" (formatBits 65 (- i) "")
  else formatBits 65 i "".

End strconv.

(** ** Package [unicode/utf8], as far as [encoding/json] needs it *)

Module utf8.

Definition cont (c : ascii) : bool :=
  (128 <=? byte_val c) && (byte_val c <=? 191).

Definition between (lo hi : Z) (c : ascii) : bool :=
  (lo <=? byte_val c) && (byte_val c <=? hi).

(** The length of the well-formed encoding at the head of [s], or [0]
    when [DecodeRune] would answer [(RuneError, 1)]. *)
Definition seq_len (s : string) : nat :=
  match s with
  | EmptyString => 0%nat
  | String p0 r =>
      let x := byte_val p0 in
      if x <? 128 then 1%nat
      else if (194 <=? x) && (x <=? 223) then
        match r with
        | String b1 _ => if cont b1 then 2%nat else 0%nat
        | _ => 0%nat
        end
      else if (224 <=? x) && (x <=? 239) then
        let lo := if x =? 224 then 160 else 128 in
        let hi := if x =? 237 then 159 else 191 in
        match r with
        | String b1 (String b2 _) =>
            if between lo hi b1 && cont b2 then 3%nat else 0%nat
        | _ => 0%nat
        end
      else if (240 <=? x) && (x <=? 244) then
        let lo := if x =? 240 then 144 else 128 in
        let hi := if x =? 244 then 143 else 191 in
        match r with
        | String b1 (String b2 (String b3 _)) =>
            if between lo hi b1 && cont b2 && cont b3 then 4%nat else 0%nat
        | _ => 0%nat
        end
      else 0%nat
  end.

(** [EncodeRune]: surrogates and out-of-range runes become U+FFFD. *)
Definition EncodeRune (r : Z) : string :=
  let b z := byte_of z in
  let x z := 128 + z mod 64 in
  if (0 <=? r) && (r <? 128) then String (b r) ""
  else if (128 <=? r) && (r <? 2048) then
    String (b (192 + r / 64)) (String (b (x r)) "")
  else if (r <? 0) || (1114111 <? r) || ((55296 <=? r) && (r <=? 57343)) then
    String (b 239) (String (b 191) (String (b 189) ""))
  else if r <? 65536 then
    String (b (224 + r / 4096)) (String (b (x (r / 64))) (String (b (x r)) ""))
  else
    String (b (240 + r / 262144))
      (String (b (x (r / 4096)))
         (String (b (x (r / 64))) (String (b (x r)) ""))).

Definition RuneError : Z := 65533.

End utf8.

Fixpoint drop (n : nat) (s : string) : string :=
  match n, s with
  | S k, String _ r => drop k r
  | _, _ => s
  end.

Fixpoint take (n : nat) (s : string) : string :=
  match n, s with
  | S k, String c r => String c (take k r)
  | _, _ => ""
  end.

(** ** Package [encoding/json]: reading one value from a request body

    [Decoder.Decode] scans the first JSON value of its input with the
    package's byte-level scanner and then stores it into the destination;
    bytes after that value are left unread.  [scan_value] is the scanner
    (with the package's nesting limit), [unquote] is [unquoteBytes]. *)

Module json.

Inductive value : Type :=
| Null
| Bool (b : bool)
| Number (lit : string)
| Str (s : string)
| Array (elems : list value)
| Object (members : list (string * value)).

Definition isSpace (c : ascii) : bool :=
  let v := byte_val c in
  (v =? 32) || (v =? 9) || (v =? 13) || (v =? 10).

Fixpoint skip_ws (s : string) : string :=
  match s with
  | String c r => if isSpace c then skip_ws r else s
  | EmptyString => s
  end.

Definition is_digit (c : ascii) : bool :=
  (48 <=? byte_val c) && (byte_val c <=? 57).

Definition hex_val (c : ascii) : Z :=
  let v := byte_val c in
  if (48 <=? v) && (v <=? 57) then v - 48
  else if (97 <=? v) && (v <=? 102) then v - 97 + 10
  else if (65 <=? v) && (v <=? 70) then v - 65 + 10
  else -1.

(** [getu4]: the code unit of a leading [\uXXXX], or [-1]. *)
Definition getu4 (s : string) : Z :=
  match s with
  | String b (String u (String h1 (String h2 (String h3 (String h4 _))))) =>
      if (byte_val b =? 92) && (byte_val u =? 117)
         && (0 <=? hex_val h1) && (0 <=? hex_val h2)
         && (0 <=? hex_val h3) && (0 <=? hex_val h4)
      then ((hex_val h1 * 16 + hex_val h2) * 16 + hex_val h3) * 16 + hex_val h4
      else -1
  | _ => -1
  end.

(** The body of a string literal, up to and excluding its closing quote
    (scanner states [stateInString], [stateInStringEsc*]). *)
Fixpoint scan_string (s : string) : option (string * string) :=
  match s with
  | EmptyString => None
  | String c r =>
      let v := byte_val c in
      if v =? 34 then Some ("", r)
      else if v <? 32 then None
      else if v =? 92 then
        match r with
        | String e r1 =>
            let ev := byte_val e in
            if (ev =? 98) || (ev =? 102) || (ev =? 110) || (ev =? 114)
               || (ev =? 116) || (ev =? 92) || (ev =? 47) || (ev =? 34)
            then
              match scan_string r1 with
              | Some (b, rest) => Some (String c (String e b), rest)
              | None => None
              end
            else if ev =? 117 then
              match r1 with
              | String h1 (String h2 (String h3 (String h4 r2))) =>
                  if (0 <=? hex_val h1) && (0 <=? hex_val h2)
                     && (0 <=? hex_val h3) && (0 <=? hex_val h4)
                  then
                    match scan_string r2 with
                    | Some (b, rest) =>
                        Some (String c (String e (String h1 (String h2
                               (String h3 (String h4 b))))), rest)
                    | None => None
                    end
                  else None
              | _ => None
              end
            else None
        | EmptyString => None
        end
      else
        match scan_string r with
        | Some (b, rest) => Some (String c b, rest)
        | None => None
        end
  end.

(** [utf16.DecodeRune]. *)
Definition utf16_DecodeRune (r1 r2 : Z) : Z :=
  if (55296 <=? r1) && (r1 <? 56320) && (56320 <=? r2) && (r2 <? 57344)
  then (r1 - 55296) * 1024 + (r2 - 56320) + 65536
  else utf8.RuneError.

(** [unquoteBytes] on the body of a literal: escapes are replaced, every
    byte that does not start well-formed UTF-8 becomes U+FFFD. *)
Fixpoint unquote (fuel : nat) (s : string) : option string :=
  match fuel with
  | O => None
  | S f =>
      match s with
      | EmptyString => Some ""
      | String c r =>
          let v := byte_val c in
          let emit out rest :=
            match unquote f rest with
            | Some t => Some (out ++ t)
            | None => None
            end in
          if v =? 92 then
            match r with
            | EmptyString => None
            | String e r1 =>
                let ev := byte_val e in
                if (ev =? 34) || (ev =? 92) || (ev =? 47) || (ev =? 39)
                then emit (String e "") r1
                else if ev =? 98 then emit (String (byte_of 8) "") r1
                else if ev =? 102 then emit (String (byte_of 12) "") r1
                else if ev =? 110 then emit (String (byte_of 10) "") r1
                else if ev =? 114 then emit (String (byte_of 13) "") r1
                else if ev =? 116 then emit (String (byte_of 9) "") r1
                else if ev =? 117 then
                  let rr := getu4 s in
                  if rr <? 0 then None
                  else
                    let s6 := drop 6 s in
                    if (55296 <=? rr) && (rr <? 57344) then
                      let dec := utf16_DecodeRune rr (getu4 s6) in
                      if dec =? utf8.RuneError
                      then emit (utf8.EncodeRune utf8.RuneError) s6
                      else emit (utf8.EncodeRune dec) (drop 6 s6)
                    else emit (utf8.EncodeRune rr) s6
                else None
            end
          else if (v =? 34) || (v <? 32) then None
          else if v <? 128 then emit (String c "") r
          else
            match utf8.seq_len s with
            | O => emit (utf8.EncodeRune utf8.RuneError) r
            | n => emit (take n s) (drop n s)
            end
      end
  end.

Fixpoint digits (s : string) : string :=
  match s with
  | String c r => if is_digit c then digits r else s
  | EmptyString => s
  end.

(** The scanner's number states; the result is the unread remainder. *)
Definition scan_exp (s : string) : option string :=
  match s with
  | String e r =>
      if (byte_val e =? 101) || (byte_val e =? 69) then
        let r1 := match r with
                  | String g r' =>
                      if (byte_val g =? 43) || (byte_val g =? 45) then r' else r
                  | EmptyString => r
                  end in
        match r1 with
        | String d r2 => if is_digit d then Some (digits r2) else None
        | EmptyString => None
        end
      else Some s
  | EmptyString => Some s
  end.

Definition scan_frac (s : string) : option string :=
  match s with
  | String p r =>
      if byte_val p =? 46 then
        match r with
        | String d r1 => if is_digit d then scan_exp (digits r1) else None
        | EmptyString => None
        end
      else scan_exp s
  | EmptyString => Some s
  end.

Definition scan_number (s : string) : option string :=
  let s1 := match s with
            | String c r => if byte_val c =? 45 then r else s
            | EmptyString => s
            end in
  match s1 with
  | String c r =>
      if byte_val c =? 48 then scan_frac r
      else if is_digit c then scan_frac (digits r)
      else None
  | EmptyString => None
  end.

(** [prefix lit s]: the rest of [s] after the bytes of [lit]. *)
Fixpoint prefix (lit s : string) : option string :=
  match lit, s with
  | EmptyString, _ => Some s
  | String a l, String b r => if Ascii.eqb a b then prefix l r else None
  | String _ _, EmptyString => None
  end.

Definition maxNestingDepth : Z := 10000.

Fixpoint scan_value (fuel : nat) (depth : Z) (s : string)
  : option (value * string) :=
  match fuel with
  | O => None
  | S f =>
      match skip_ws s with
      | EmptyString => None
      | String c r as s0 =>
          let v := byte_val c in
          if v =? 123 then
            if maxNestingDepth <=? depth then None
            else
              match skip_ws r with
              | String c1 r1 as s1 =>
                  if byte_val c1 =? 125 then Some (Object [], r1)
                  else scan_members f (depth + 1) s1 []
              | EmptyString => None
              end
          else if v =? 91 then
            if maxNestingDepth <=? depth then None
            else
              match skip_ws r with
              | String c1 r1 as s1 =>
                  if byte_val c1 =? 93 then Some (Array [], r1)
                  else scan_elems f (depth + 1) s1 []
              | EmptyString => None
              end
          else if v =? 34 then
            match scan_string r with
            | Some (raw, rest) =>
                match unquote (S (String.length raw)) raw with
                | Some t => Some (Str t, rest)
                | None => None
                end
            | None => None
            end
          else if v =? 116 then
            option_map (fun rest => (Bool true, rest)) (prefix "true" s0)
          else if v =? 102 then
            option_map (fun rest => (Bool false, rest)) (prefix "false" s0)
          else if v =? 110 then
            option_map (fun rest => (Null, rest)) (prefix "null" s0)
          else
            match scan_number s0 with
            | Some rest =>
                Some (Number (take (String.length s0 - String.length rest) s0),
                      rest)
            | None => None
            end
      end
  end

with scan_members (fuel : nat) (depth : Z) (s : string)
                  (acc : list (string * value)) : option (value * string) :=
  match fuel with
  | O => None
  | S f =>
      match skip_ws s with
      | String q r =>
          if byte_val q =? 34 then
            match scan_string r with
            | Some (raw, r1) =>
                match unquote (S (String.length raw)) raw, skip_ws r1 with
                | Some key, String colon r2 =>
                    if byte_val colon =? 58 then
                      match scan_value f depth r2 with
                      | Some (v, r3) =>
                          match skip_ws r3 with
                          | String d r4 =>
                              if byte_val d =? 44 then
                                scan_members f depth r4 (acc ++ [(key, v)])
                              else if byte_val d =? 125 then
                                Some (Object (acc ++ [(key, v)]), r4)
                              else None
                          | EmptyString => None
                          end
                      | None => None
                      end
                    else None
                | _, _ => None
                end
            | None => None
            end
          else None
      | EmptyString => None
      end
  end

with scan_elems (fuel : nat) (depth : Z) (s : string) (acc : list value)
  : option (value * string) :=
  match fuel with
  | O => None
  | S f =>
      match scan_value f depth s with
      | Some (v, r) =>
          match skip_ws r with
          | String d r1 =>
              if byte_val d =? 44 then scan_elems f depth r1 (acc ++ [v])
              else if byte_val d =? 93 then Some (Array (acc ++ [v]), r1)
              else None
          | EmptyString => None
          end
      | None => None
      end
  end.

(** The first value of [data] and what follows it.  Of any two nested
    calls of the scanner the inner one starts at least a byte further, so
    twice the length of the input bounds the depth of the recursion. *)
Definition first_value (data : string) : option (value * string) :=
  scan_value (2 * String.length data + 2) 0 data.

(** [Valid]: the whole input is one value between optional white space. *)
Definition Valid (data : string) : bool :=
  match first_value data with
  | Some (_, rest) =>
      match skip_ws rest with EmptyString => true | _ => false end
  | None => false
  end.

(** [foldName], on its ASCII path.  Outside ASCII it folds runes by
    Unicode simple case folding, which maps no other rune to the letters
    t, e and x of the one field name decoded here. *)
Definition foldName (s : string) : string := fold_ascii s.

(** Storing a scanned value into a struct whose only field is a string
    tagged [name]: [d.value] / [d.object] / [d.literalStore].  The result is
    the field's new content and the first saved [UnmarshalTypeError].
    A key selects the field when it equals the tag exactly or after
    folding; [null] leaves the field alone; a later duplicate key wins. *)
Definition store_member (name : string) (st : string * option error)
                        (m : string * value) : string * option error :=
  let '(field, saved) := st in
  let '(key, v) := m in
  if String.eqb key name || String.eqb (foldName key) (foldName name) then
    match v with
    | Str t => (t, saved)
    | Null => (field, saved)
    | _ =>
        (field,
         match saved with
         | Some e => Some e
         | None =>
             Some (LibError "json: cannot unmarshal into field of type string")
         end)
    end
  else st.

Definition store_struct (name : string) (v : value) (field : string)
  : string * option error :=
  match v with
  | Null => (field, None)
  | Object ms => fold_left (store_member name) ms (field, None)
  | _ =>
      (field,
       Some (LibError "json: cannot unmarshal into value of struct type"))
  end.

End json.

(** ** Package [model] *)

Module model.

Record Joke : Type := mkJoke {
  ID : Z;
  Text : string;
  CreatedAt : Z;
  UpdatedAt : Z
}.

End model.

(** ** The world a request runs in

    [rows] is the [jokes] table in rowid order, [seq] the value SQLite keeps
    in [sqlite_sequence] for an AUTOINCREMENT key, [closed] whether
    [Close] has released the handle.  [wall] is the wall clock: the
    [n]-th call of [time.Now] returns [wall n], and [tick] counts the
    calls made so far.  [dice] and [rolls] do the same for the random
    order of [ORDER BY RANDOM()].  [calls] records the repository methods
    invoked, oldest first, and [logs] the lines the handlers' logger has
    written. *)

Record DB : Type := mkDB {
  rows : list model.Joke;
  seq : Z;
  closed : bool
}.

Inductive Call : Type :=
| CallGetJoke (id : Z)
| CallGetRandomJoke
| CallListJokes (limit offset : Z)
| CallCreateJoke (text : string)
| CallUpdateJoke (id : Z) (text : string)
| CallDeleteJoke (id : Z)
| CallCountJokes
| CallClose.

Record World : Type := mkWorld {
  db : DB;
  wall : nat -> Z;
  tick : nat;
  dice : nat -> nat;
  rolls : nat;
  calls : list Call;
  logs : list string
}.

Definition set_db (d : DB) (w : World) : World :=
  mkWorld d (wall w) (tick w) (dice w) (rolls w) (calls w) (logs w).

(** *** A state monad over the world *)

Definition M (A : Type) : Type := World -> A * World.

Definition ret {A : Type} (a : A) : M A := fun w => (a, w).

Definition bind {A B : Type} (m : M A) (k : A -> M B) : M B :=
  fun w => let '(a, w') := m w in k a w'.

Declare Scope monad_scope.
Delimit Scope monad_scope with monad.
Notation "x <- m ;; k" := (bind m (fun x => k))
  (at level 61, m at next level, right associativity) : monad_scope.
Notation "m ;;; k" := (bind m (fun _ => k))
  (at level 61, right associativity) : monad_scope.
Local Open Scope monad_scope.

Definition get_db : M DB := fun w => (db w, w).

Definition put_db (d : DB) : M unit := fun w => (tt, set_db d w).

Definition record (c : Call) : M unit :=
  fun w => (tt, mkWorld (db w) (wall w) (tick w) (dice w) (rolls w)
                        (calls w ++ [c]) (logs w)).

(** [time.Now().UTC()] *)
Definition time_Now : M Z :=
  fun w => (wall w (tick w),
            mkWorld (db w) (wall w) (S (tick w)) (dice w) (rolls w) (calls w)
                    (logs w)).

(** [logger.Error(msg, slog.String("error", detail))] *)
Definition log_Error (msg detail : string) : M unit :=
  fun w => (tt, mkWorld (db w) (wall w) (tick w) (dice w) (rolls w) (calls w)
                        (logs w ++ [msg ++ " error=" ++ detail])).

Definition roll : M nat :=
  fun w => (dice w (rolls w),
            mkWorld (db w) (wall w) (tick w) (dice w) (S (rolls w)) (calls w)
                    (logs w)).

(** Go slices: the nil slice and an allocated one are different values,
    and [encoding/json] writes them differently. *)
Inductive slice (A : Type) : Type :=
| nil_slice
| Slice (elems : list A).
Arguments nil_slice {A}.
Arguments Slice {A} elems.

Definition append {A : Type} (s : slice A) (x : A) : slice A :=
  match s with
  | nil_slice => Slice [x]
  | Slice l => Slice (l ++ [x])
  end.

Definition slice_len {A : Type} (s : slice A) : Z :=
  match s with
  | nil_slice => 0
  | Slice l => Z.of_nat (List.length l)
  end.

(** ** Package [repository] *)

Module repository.

Import model.

(** *** The SQL statements, on the table *)

Definition MAX_ROWID : Z := 2 ^ 63 - 1.

(** The largest rowid in use, if any. *)
Definition last_rowid (t : list Joke) : option Z :=
  match t with
  | [] => None
  | j :: r => Some (fold_left (fun m k => Z.max m (ID k)) r (ID j))
  end.

(** The key SQLite gives to a row inserted into an
    [INTEGER PRIMARY KEY AUTOINCREMENT] table: one more than the largest
    rowid in use and than every rowid ever used; [None] is SQLITE_FULL. *)
Definition new_rowid (d : DB) : option Z :=
  let full := match last_rowid (rows d) with
              | Some m => MAX_ROWID <=? m
              | None => false
              end in
  if full || (MAX_ROWID <=? seq d) then None
  else
    let v := match last_rowid (rows d) with
             | Some m => m + 1
             | None => 1
             end in
    Some (Z.max v (seq d + 1)).

(** [SELECT ... WHERE id = ?] *)
Definition select_by_id (id : Z) (t : list Joke) : option Joke :=
  find (fun j => ID j =? id) t.

(** [SELECT ... ORDER BY RANDOM() LIMIT 1]; [k] is the draw. *)
Definition select_random (k : nat) (t : list Joke) : option Joke :=
  nth_error t (k mod List.length t).

(** [SELECT ... LIMIT ? OFFSET ?]: a negative limit is no limit, a
    negative offset is none. *)
Definition select_page (limit offset : Z) (t : list Joke) : list Joke :=
  let rest := skipn (Z.to_nat offset) t in
  if limit <? 0 then rest else firstn (Z.to_nat limit) rest.

(** [UPDATE jokes SET text = ?, updated_at = ? WHERE id = ?] *)
Definition update_rows (id : Z) (text : string) (now : Z) (t : list Joke)
  : list Joke :=
  map (fun j => if ID j =? id
                then mkJoke (ID j) text (CreatedAt j) now
                else j) t.

(** [DELETE FROM jokes WHERE id = ?] *)
Definition delete_rows (id : Z) (t : list Joke) : list Joke :=
  filter (fun j => negb (ID j =? id)) t.

Definition matching (id : Z) (t : list Joke) : Z :=
  Z.of_nat (List.length (filter (fun j => ID j =? id) t)).

(** *** [database/sql] on that table

    A closed handle fails every statement; [QueryRow ... Scan] on an empty
    result is [sql.ErrNoRows]. *)

Definition QueryRow {A : Type} (q : list Joke -> option A) : M (error + A) :=
  d <- get_db ;;
  if closed d then ret (inl (Sentinel sql_errDBClosed))
  else
    match q (rows d) with
    | Some a => ret (inr a)
    | None => ret (inl (Sentinel sql_ErrNoRows))
    end.

Definition Query (q : list Joke -> list Joke) : M (error + list Joke) :=
  d <- get_db ;;
  if closed d then ret (inl (Sentinel sql_errDBClosed))
  else ret (inr (q (rows d))).

(** [Exec] of the INSERT; the result carries [LastInsertId]. *)
Definition ExecInsert (text : string) (created updated : Z) : M (error + Z) :=
  d <- get_db ;;
  if closed d then ret (inl (Sentinel sql_errDBClosed))
  else
    match new_rowid d with
    | None => ret (inl (Sentinel sqlite_FULL))
    | Some id =>
        put_db (mkDB (rows d ++ [mkJoke id text created updated]) id false) ;;;
        ret (inr id)
    end.

(** [Exec] of an UPDATE or DELETE; the result carries [RowsAffected]. *)
Definition ExecWrite (affected : list Joke -> Z)
                     (f : list Joke -> list Joke) : M (error + Z) :=
  d <- get_db ;;
  if closed d then ret (inl (Sentinel sql_errDBClosed))
  else
    put_db (mkDB (f (rows d)) (seq d) false) ;;;
    ret (inr (affected (rows d))).

Definition is_sentinel (err : error) (s : sentinel) : bool :=
  match err with
  | Sentinel s' => sentinel_eqb s' s
  | _ => false
  end.

(** *** The interface [JokeRepository]

    The interface names the integer parameters of [ListJokes]
    [offset, limit]; the implementation and the handler both take them as
    [limit, offset], and arguments are passed by position. *)

Class JokeRepository : Type := {
  GetJoke : Z -> M (error + Joke);
  GetRandomJoke : M (error + Joke);
  ListJokes : Z -> Z -> M (slice Joke * option error);
  CreateJoke : Joke -> M (error + Z);
  UpdateJoke : Joke -> M (option error);
  DeleteJoke : Z -> M (option error);
  CountJokes : M (error + Z);
  Close : M (option error)
}.

(** *** The methods of [SQLiteJokeRepository] *)

(** The table of a database file that [NewSQLiteJokeRepository] has just
    created. *)
Definition NewSQLiteJokeRepository : DB := mkDB [] 0 false.

Module SQLite.

Definition GetJoke (id : Z) : M (error + Joke) :=
  record (CallGetJoke id) ;;;
  row <- QueryRow (select_by_id id) ;;
  match row with
  | inl err =>
      if is_sentinel err sql_ErrNoRows
      then ret (inl (Wrapf "joke not found" err))
      else ret (inl (Wrapf "error getting joke" err))
  | inr joke => ret (inr joke)
  end.

Definition GetRandomJoke : M (error + Joke) :=
  record CallGetRandomJoke ;;;
  k <- roll ;;
  row <- QueryRow (select_random k) ;;
  match row with
  | inl err =>
      if is_sentinel err sql_ErrNoRows
      then ret (inl (Wrapf "joke not found" err))
      else ret (inl (Wrapf "error getting joke" err))
  | inr joke => ret (inr joke)
  end.

Definition ListJokes (limit offset : Z) : M (slice Joke * option error) :=
  record (CallListJokes limit offset) ;;;
  res <- Query (select_page limit offset) ;;
  match res with
  | inl err => ret (nil_slice, Some (Wrapf "error listing jokes" err))
  | inr selected =>
      let jokes := Slice [] in
      ret (fold_left append selected jokes, None)
  end.

Definition CreateJoke (joke : Joke) : M (error + Z) :=
  record (CallCreateJoke (Text joke)) ;;;
  created <- time_Now ;;
  updated <- time_Now ;;
  result <- ExecInsert (Text joke) created updated ;;
  match result with
  | inl err => ret (inl (Wrapf "error creating joke" err))
  | inr id => ret (inr id)
  end.

Definition UpdateJoke (joke : Joke) : M (option error) :=
  record (CallUpdateJoke (ID joke) (Text joke)) ;;;
  now <- time_Now ;;
  result <- ExecWrite (matching (ID joke))
                      (update_rows (ID joke) (Text joke) now) ;;
  match result with
  | inl err => ret (Some (Wrapf "error updating joke" err))
  | inr rowsAffected =>
      if rowsAffected =? 0 then ret (Some (Errorf "joke not found"))
      else ret None
  end.

Definition DeleteJoke (id : Z) : M (option error) :=
  record (CallDeleteJoke id) ;;;
  result <- ExecWrite (matching id) (delete_rows id) ;;
  match result with
  | inl err => ret (Some (Wrapf "error deleting joke" err))
  | inr rowsAffected =>
      if rowsAffected =? 0 then ret (Some (Errorf "joke not found"))
      else ret None
  end.

Definition CountJokes : M (error + Z) :=
  record CallCountJokes ;;;
  row <- QueryRow (fun t => Some (Z.of_nat (List.length t))) ;;
  match row with
  | inl err => ret (inl (Wrapf "error counting jokes" err))
  | inr count => ret (inr count)
  end.

Definition Close : M (option error) :=
  record CallClose ;;;
  d <- get_db ;;
  put_db (mkDB (rows d) (seq d) true) ;;;
  ret None.

End SQLite.

#[global] Instance SQLiteJokeRepository : JokeRepository := {|
  GetJoke := SQLite.GetJoke;
  GetRandomJoke := SQLite.GetRandomJoke;
  ListJokes := SQLite.ListJokes;
  CreateJoke := SQLite.CreateJoke;
  UpdateJoke := SQLite.UpdateJoke;
  DeleteJoke := SQLite.DeleteJoke;
  CountJokes := SQLite.CountJokes;
  Close := SQLite.Close
|}.

End repository.

(** ** Package [net/http], as far as the handlers use it *)

Module http.

(** What [json.Marshal] writes, as a tree; [WTime] stands for the
    RFC 3339 string of a timestamp. *)
Inductive wire : Type :=
| WNull
| WInt (n : Z)
| WString (s : string)
| WTime (t : Z)
| WArray (elems : list wire)
| WObject (fields : list (string * wire)).

Inductive chunk : Type :=
| JSONBytes (v : wire)     (* the encoding of [v] *)
| TextBytes (s : string).  (* these bytes *)

Record ResponseWriter : Type := mkRW {
  header : list (string * string);
  status : option Z;
  body : list chunk
}.

Definition NewRecorder : ResponseWriter := mkRW [] None [].

Fixpoint assoc_set (k v : string) (h : list (string * string))
  : list (string * string) :=
  match h with
  | [] => [(k, v)]
  | (k', v') :: r =>
      if String.eqb k' k then (k, v) :: r else (k', v') :: assoc_set k v r
  end.

Fixpoint assoc_get (k : string) (h : list (string * string)) : string :=
  match h with
  | [] => ""
  | (k', v) :: r => if String.eqb k' k then v else assoc_get k r
  end.

Definition Header_Set (k v : string) (w : ResponseWriter) : ResponseWriter :=
  mkRW (assoc_set k v (header w)) (status w) (body w).

(** Only the first [WriteHeader] counts. *)
Definition WriteHeader (code : Z) (w : ResponseWriter) : ResponseWriter :=
  match status w with
  | Some _ => w
  | None => mkRW (header w) (Some code) (body w)
  end.

(** A [Write] before any [WriteHeader] sends status 200. *)
Definition Write (c : chunk) (w : ResponseWriter) : ResponseWriter :=
  let w' := WriteHeader 200 w in
  mkRW (header w') (status w') (body w' ++ [c]).

Definition Header_Del (k : string) (w : ResponseWriter) : ResponseWriter :=
  mkRW (filter (fun kv => negb (String.eqb (fst kv) k)) (header w))
       (status w) (body w).

(** [http.Error] *)
Definition Error (w : ResponseWriter) (msg : string) (code : Z)
  : ResponseWriter :=
  let w0 := Header_Del "Content-Length" w in
  let w1 := Header_Set "Content-Type" "text/plain; charset=utf-8" w0 in
  let w2 := Header_Set "X-Content-Type-Options" "nosniff" w1 in
  Write (TextBytes (msg ++ String (byte_of 10) "")) (WriteHeader code w2).

Definition StatusOK : Z := 200.
Definition StatusCreated : Z := 201.
Definition StatusNoContent : Z := 204.
Definition StatusBadRequest : Z := 400.
Definition StatusUnauthorized : Z := 401.
Definition StatusNotFound : Z := 404.
Definition StatusMethodNotAllowed : Z := 405.
Definition StatusInternalServerError : Z := 500.

(** The status line a client sees. *)
Definition code (w : ResponseWriter) : Z :=
  match status w with
  | Some c => c
  | None => StatusOK
  end.

Record Request : Type := mkRequest {
  Method : string;
  Path : string;
  Query : list (string * string);      (* r.URL.Query(), first value per key *)
  Header : list (string * string);     (* r.Header *)
  Body : string;
  URLParams : list (string * string)   (* chi's route context *)
}.

(** [r.Header.Get]: header names compare without regard to ASCII case,
    which is what canonicalising both sides amounts to. *)
Fixpoint Header_Get (k : string) (h : list (string * string)) : string :=
  match h with
  | [] => ""
  | (k', v) :: r =>
      if String.eqb (fold_ascii k') (fold_ascii k) then v
      else Header_Get k r
  end.

(** [chi.URLParam] *)
Definition URLParam (r : Request) (k : string) : string :=
  assoc_get k (URLParams r).

Definition Handler : Type := ResponseWriter -> Request -> M ResponseWriter.

End http.

(** ** Package [handler] *)

Module handler.

Import model http.

Record JokeListResponse : Type := mkJokeListResponse {
  Jokes : slice Joke;
  Total : Z;
  Limit : Z;
  Offset : Z
}.

Record ErrorResponse : Type := mkErrorResponse { Error : string }.

(** The field [Text] of the request, named apart from [Joke]'s. *)
Record CreateJokeRequest : Type := mkCreateJokeRequest { ReqText : string }.

(** The values the handlers pass to [respondWithJSON]. *)
Inductive payload : Type :=
| OfError (e : ErrorResponse)
| OfJoke (j : Joke)
| OfList (l : JokeListResponse).

Definition marshal_Joke (j : Joke) : wire :=
  WObject [("id", WInt (ID j)); ("joke", WString (Text j));
           ("created_at", WTime (CreatedAt j));
           ("updated_at", WTime (UpdatedAt j))].

Definition marshal_slice (s : slice Joke) : wire :=
  match s with
  | nil_slice => WNull
  | Slice l => WArray (map marshal_Joke l)
  end.

(** [json.Marshal] on those values.  It has no failing case for them:
    strings, integers and slices always encode, and so does a timestamp
    read from the wall clock. *)
Definition json_Marshal (p : payload) : error + wire :=
  match p with
  | OfError e => inr (WObject [("error", WString (Error e))])
  | OfJoke j => inr (marshal_Joke j)
  | OfList l =>
      inr (WObject [("jokes", marshal_slice (Jokes l));
                    ("total", WInt (Total l));
                    ("limit", WInt (Limit l));
                    ("offset", WInt (Offset l))])
  end.

Definition respondWithJSON (w : ResponseWriter) (code : Z) (p : payload)
  : ResponseWriter :=
  match json_Marshal p with
  | inl _ =>
      Write (TextBytes "Internal Server Error")
            (WriteHeader StatusInternalServerError w)
  | inr response =>
      Write (JSONBytes response)
            (WriteHeader code (Header_Set "Content-Type" "application/json" w))
  end.

Definition respondWithError (w : ResponseWriter) (code : Z) (message : string)
  : ResponseWriter :=
  respondWithJSON w code (OfError (mkErrorResponse message)).

(** [json.NewDecoder(r.Body).Decode(&req)] for a [CreateJokeRequest]. *)
Definition Decode (data : string) : error + CreateJokeRequest :=
  match json.first_value data with
  | None => inl (LibError "json: no value could be read")
  | Some (v, _) =>
      match json.store_struct "text" v "" with
      | (_, Some err) => inl err
      | (text, None) => inr (mkCreateJokeRequest text)
      end
  end.

(** The methods of [JokeHandler].  The receiver's [repo] is the
    repository of this section, its [logger] writes to the world's log. *)
Section JokeHandler.

Context {repo : repository.JokeRepository}.

Definition ListJokes : Handler := fun w r =>
  let limit := 10 in
  let offset := 0 in
  let limitParam := assoc_get "limit" (Query r) in
  let limit :=
    if negb (String.eqb limitParam "") then
      match strconv.Atoi limitParam with
      | (parsedLimit, None) => if 0 <? parsedLimit then parsedLimit else limit
      | (_, Some _) => limit
      end
    else limit in
  let offsetParam := assoc_get "offset" (Query r) in
  let offset :=
    if negb (String.eqb offsetParam "") then
      match strconv.Atoi offsetParam with
      | (parsedOffset, None) =>
          if 0 <=? parsedOffset then parsedOffset else offset
      | (_, Some _) => offset
      end
    else offset in
  res <- repository.ListJokes limit offset ;;
  match res with
  | (_, Some _) =>
      ret (respondWithError w StatusInternalServerError
             "Failed to retrieve jokes")
  | (jokes, None) =>
      cnt <- repository.CountJokes ;;
      match cnt with
      | inl _ =>
          ret (respondWithError w StatusInternalServerError
                 "Failed to count jokes")
      | inr total =>
          ret (respondWithJSON w StatusOK
                 (OfList (mkJokeListResponse jokes total limit offset)))
      end
  end.

Definition GetJoke : Handler := fun w r =>
  let idParam := URLParam r "id" in
  match strconv.ParseInt idParam with
  | (_, Some _) => ret (respondWithError w StatusBadRequest "Invalid joke ID")
  | (id, None) =>
      res <- repository.GetJoke id ;;
      match res with
      | inl err =>
          if errors_Is err ErrJokeNotFound
          then ret (respondWithError w StatusNotFound "Joke not found")
          else ret (respondWithError w StatusInternalServerError
                      "Failed to retrieve joke")
      | inr joke => ret (respondWithJSON w StatusOK (OfJoke joke))
      end
  end.

Definition GetRandomJoke : Handler := fun w r =>
  res <- repository.GetRandomJoke ;;
  match res with
  | inl err =>
      if errors_Is err ErrNoJokes
      then ret (respondWithError w StatusNotFound "No jokes available")
      else ret (respondWithError w StatusInternalServerError
                  "Failed to retrieve random joke")
  | inr joke => ret (respondWithJSON w StatusOK (OfJoke joke))
  end.

Definition CreateJoke : Handler := fun w r =>
  match Decode (Body r) with
  | inl _ => ret (respondWithError w StatusBadRequest "Invalid request payload")
  | inr req =>
      if String.eqb (ReqText req) ""
      then ret (respondWithError w StatusBadRequest "Joke text is required")
      else
        let joke := mkJoke 0 (ReqText req) 0 0 in
        res <- repository.CreateJoke joke ;;
        match res with
        | inl err =>
            log_Error "Failed to create joke" (error_text err) ;;;
            ret (respondWithError w StatusInternalServerError
                   "Failed to create joke")
        | inr id =>
            got <- repository.GetJoke id ;;
            match got with
            | inl _ =>
                ret (respondWithError w StatusInternalServerError
                       "Joke created but failed to retrieve")
            | inr createdJoke =>
                let w1 := Header_Set "Location"
                            ("/api/jokes/" ++ strconv.FormatInt id) w in
                ret (respondWithJSON w1 StatusCreated (OfJoke createdJoke))
            end
        end
  end.

Definition UpdateJoke : Handler := fun w r =>
  let idParam := URLParam r "id" in
  match strconv.ParseInt idParam with
  | (_, Some _) => ret (respondWithError w StatusBadRequest "Invalid joke ID")
  | (id, None) =>
      match Decode (Body r) with
      | inl _ =>
          ret (respondWithError w StatusBadRequest "Invalid request payload")
      | inr req =>
          if String.eqb (ReqText req) ""
          then ret (respondWithError w StatusBadRequest "Joke text is required")
          else
            pre <- repository.GetJoke id ;;
            match pre with
            | inl err =>
                if errors_Is err ErrJokeNotFound
                then ret (respondWithError w StatusNotFound "Joke not found")
                else ret (respondWithError w StatusInternalServerError
                            "Failed to retrieve joke")
            | inr _ =>
                let joke := mkJoke id (ReqText req) 0 0 in
                upd <- repository.UpdateJoke joke ;;
                match upd with
                | Some _ =>
                    ret (respondWithError w StatusInternalServerError
                           "Failed to update joke")
                | None =>
                    got <- repository.GetJoke id ;;
                    match got with
                    | inl _ =>
                        ret (respondWithError w StatusInternalServerError
                               "Joke updated but failed to retrieve")
                    | inr updatedJoke =>
                        ret (respondWithJSON w StatusOK (OfJoke updatedJoke))
                    end
                end
            end
      end
  end.

Definition DeleteJoke : Handler := fun w r =>
  let idParam := URLParam r "id" in
  match strconv.ParseInt idParam with
  | (_, Some _) => ret (respondWithError w StatusBadRequest "Invalid joke ID")
  | (id, None) =>
      err <- repository.DeleteJoke id ;;
      match err with
      | Some e =>
          if errors_Is e ErrJokeNotFound
          then ret (respondWithError w StatusNotFound "Joke not found")
          else ret (respondWithError w StatusInternalServerError
                      "Failed to delete joke")
      | None => ret (WriteHeader StatusNoContent w)
      end
  end.

End JokeHandler.

End handler.

(** ** Package [middleware] *)

Module middleware.

Import http.

Definition Unauthorized : string := "Unauthorized".

Definition AdminAuth (apiKey : string) (next : Handler) : Handler :=
  fun w r =>
    let key := Header_Get "Admin-API-Key" (Header r) in
    if String.eqb key "" then ret (http.Error w Unauthorized StatusUnauthorized)
    else if negb (String.eqb key apiKey)
    then ret (http.Error w Unauthorized StatusUnauthorized)
    else next w r.

End middleware.

(** ** The routing table of [run] in [cmd/api/main.go]

    The chi router is modelled on the path split at its slashes.  A mounted
    sub-router sees the rest of the path; a [{id}] segment matches one
    non-empty segment; a path that matches under another method only is
    answered 405 (chi's [Allow] header is left out), any other path 404 by
    [http.NotFound].  The logging, recovery and CORS middleware of the
    outer router leave status and body alone and are not modelled. *)

Module api.

Import http.

Fixpoint split (s : string) : list string :=
  match s with
  | EmptyString => [""]
  | String c r =>
      if byte_val c =? 47 then "" :: split r
      else
        match split r with
        | h :: t => String c h :: t
        | [] => [String c ""]
        end
  end.

Definition NotFound : Handler := fun w r =>
  ret (http.Error w "404 page not found" StatusNotFound).

Definition methodNotAllowed : Handler := fun w r =>
  ret (WriteHeader StatusMethodNotAllowed w).

Definition on (method : string) (h : Handler) : Handler := fun w r =>
  if String.eqb (Method r) method then h w r else methodNotAllowed w r.

Definition with_id (id : string) (h : Handler) : Handler := fun w r =>
  h w (mkRequest (Method r) (Path r) (Query r) (Header r) (Body r)
         [("id", id)]).

Definition jokeRouter (sub : list string) : Handler :=
  match sub with
  | [] => on "GET" handler.ListJokes
  | [seg] =>
      if String.eqb seg "" then on "GET" handler.ListJokes
      else if String.eqb seg "random" then on "GET" handler.GetRandomJoke
      else on "GET" (with_id seg handler.GetJoke)
  | _ => NotFound
  end.

Definition adminRoutes (sub : list string) : Handler :=
  match sub with
  | [seg] =>
      if String.eqb seg "joke" then on "POST" handler.CreateJoke else NotFound
  | [seg; id] =>
      if String.eqb seg "joke" && negb (String.eqb id "") then
        fun w r =>
          if String.eqb (Method r) "PUT"
          then with_id id handler.UpdateJoke w r
          else if String.eqb (Method r) "DELETE"
          then with_id id handler.DeleteJoke w r
          else methodNotAllowed w r
      else NotFound
  | _ => NotFound
  end.

Definition adminRouter (adminApiKey : string) (sub : list string) : Handler :=
  middleware.AdminAuth adminApiKey (adminRoutes sub).

Definition apiRouter (adminApiKey : string) (sub : list string) : Handler :=
  match sub with
  | seg :: rest =>
      if String.eqb seg "admin" then adminRouter adminApiKey rest
      else if String.eqb seg "joke" then jokeRouter rest
      else NotFound
  | [] => NotFound
  end.

Definition root : Handler := fun w r =>
  ret (Write (TextBytes "Hello from the Jokes API!") w).

Definition healthz : Handler := fun w r =>
  ret (Write (TextBytes "OK") (WriteHeader StatusOK w)).

(** The handler [srv] serves with, on a fresh response writer. *)
Definition router (adminApiKey : string) : Handler := fun w r =>
  match split (Path r) with
  | [e; seg] =>
      if String.eqb e "" && String.eqb seg "" then on "GET" root w r
      else if String.eqb e "" && String.eqb seg "healthz"
      then on "GET" healthz w r
      else NotFound w r
  | e :: seg :: rest =>
      if String.eqb e "" && String.eqb seg "api"
      then apiRouter adminApiKey rest w r
      else NotFound w r
  | _ => NotFound w r
  end.

Definition serve (adminApiKey : string) (r : Request) : M ResponseWriter :=
  router adminApiKey NewRecorder r.

End api.

(** ** Vocabulary of the properties *)

Import model http.

(** The world after a repository call has been recorded. *)
Definition noted (c : Call) (w : World) : World :=
  mkWorld (db w) (wall w) (tick w) (dice w) (rolls w) (calls w ++ [c])
          (logs w).

(** The world after [n] more readings of the clock. *)
Definition ticked (n : nat) (w : World) : World :=
  mkWorld (db w) (wall w) (n + tick w) (dice w) (rolls w) (calls w) (logs w).

Definition rolled (w : World) : World :=
  mkWorld (db w) (wall w) (tick w) (dice w) (S (rolls w)) (calls w) (logs w).

Definition is_open (w : World) : Prop := closed (db w) = false.

(** The request carries the configured, non-empty admin key. *)
Definition authorized (adminApiKey : string) (r : Request) : Prop :=
  adminApiKey <> "" /\ Header_Get "Admin-API-Key" (Header r) = adminApiKey.

(** The response is what [respondWithError] writes for some message and
    the status it has: the body is exactly one JSON object
    [{"error": <string>}], announced as JSON. *)
Definition error_shaped (rw : ResponseWriter) : Prop :=
  exists message,
    rw = handler.respondWithError NewRecorder (code rw) message
    /\ body rw = [JSONBytes (WObject [("error", WString message)])]
    /\ assoc_get "Content-Type" (header rw) = "application/json".

Definition error_body (message : string) : list chunk :=
  [JSONBytes (WObject [("error", WString message)])].

Definition joke_body (j : Joke) : list chunk :=
  [JSONBytes (handler.marshal_Joke j)].

(** States of the running service: a database file created by
    [NewSQLiteJokeRepository], then any number of requests served, the
    process being restarted on the same file at any time. *)
Inductive reachable : World -> Prop :=
| reach_start : forall clock draws,
    reachable (mkWorld repository.NewSQLiteJokeRepository clock 0 draws 0 []
                       [])
| reach_serve : forall adminApiKey r w,
    reachable w -> reachable (snd (api.serve adminApiKey r w))
| reach_restart : forall clock draws w,
    reachable w -> reachable (mkWorld (db w) clock 0 draws 0 [] []).

(** Writing a body with single quotes for the double ones. *)
Fixpoint dq (s : string) : string :=
  match s with
  | String c r =>
      String (if byte_val c =? 39 then byte_of 34 else c) (dq r)
  | EmptyString => EmptyString
  end.

(** A world to run scenarios in: a new database and a clock that
    advances by a nanosecond between readings. *)
Definition clock0 (n : nat) : Z := 1700000000000000000 + Z.of_nat n.

Definition world0 : World :=
  mkWorld repository.NewSQLiteJokeRepository clock0 0 (fun n => n) 0 [] [].

Definition request (method path : string) (hdr : list (string * string))
                   (data : string) : Request :=
  mkRequest method path [] hdr data [].



(** Who writes the response.

    Whatever the request, the router hands it to one of ten handlers
    (possibly with the [id] segment filled in), unless the admin gate
    answers it first. *)

Definition leaves : list Handler :=
  [handler.ListJokes; handler.GetRandomJoke; handler.GetJoke;
   handler.CreateJoke; handler.UpdateJoke; handler.DeleteJoke;
   api.NotFound; api.methodNotAllowed; api.root; api.healthz].

Inductive served_by (rw : ResponseWriter) (w : World)
  : ResponseWriter * World -> Prop :=
| by_leaf : forall h r, In h leaves -> served_by rw w (h rw r w)
| by_gate :
    served_by rw w
      (http.Error rw middleware.Unauthorized StatusUnauthorized, w).

Definition dispatches (h : Handler) : Prop :=
  forall rw r w, served_by rw w (h rw r w).

(** What every request leaves intact: the handle stays open,
    [sqlite_sequence] is not negative and no row has a key above it. *)
Definition db_ok (d : DB) : Prop :=
  closed d = false /\ 0 <= seq d /\ (forall j, In j (rows d) -> ID j <= seq d).

Definition store_ok (w : World) : Prop := db_ok (db w).

(** A key that is not in the table and will not be handed out again. *)
Definition retired (id : Z) (d : DB) : Prop :=
  repository.select_by_id id (rows d) = None /\ id <= seq d.

(** [w'] is [w] after some more requests. *)
Inductive later (w : World) : World -> Prop :=
| later_now : later w w
| later_serve : forall adminApiKey r w',
    later w w' -> later w (snd (api.serve adminApiKey r w')).

(** Decimal integer literals, as the specification speaks of them: an
    optional sign and at least one digit, denoting a number; the literal
    "parses as an integer" when that number fits the 64 bits of an
    [int]. *)
Fixpoint digits_value (s : string) (acc : Z) : option Z :=
  match s with
  | EmptyString => Some acc
  | String c r =>
      if json.is_digit c then digits_value r (10 * acc + (byte_val c - 48))
      else None
  end.

Definition integer_literal (s : string) : option Z :=
  match s with
  | EmptyString => None
  | String c r =>
      if Ascii.eqb c "-" then
        match r with
        | EmptyString => None
        | _ => option_map Z.opp (digits_value r 0)
        end
      else if Ascii.eqb c "+" then
        match r with
        | EmptyString => None
        | _ => digits_value r 0
        end
      else digits_value s 0
  end.

Definition fits_int64 (n : Z) : bool := (- 2 ^ 63 <=? n) && (n <? 2 ^ 63).

Definition as_int64 (s : string) : option Z :=
  match integer_literal s with
  | Some n => if fits_int64 n then Some n else None
  | None => None
  end.

Fixpoint all_digits (s : string) : bool :=
  match s with
  | EmptyString => true
  | String c r => json.is_digit c && all_digits r
  end.

(** The limit and offset of a list request, in the words of the
    specification: the parameter when it parses as a positive (for the
    offset: non-negative) integer, the default otherwise. *)
Definition spec_limit (r : Request) : Z :=
  match as_int64 (assoc_get "limit" (Query r)) with
  | Some n => if 0 <? n then n else 10
  | None => 10
  end.

Definition spec_offset (r : Request) : Z :=
  match as_int64 (assoc_get "offset" (Query r)) with
  | Some n => if 0 <=? n then n else 0
  | None => 0
  end.

Definition list_body (jokes : list Joke) (total limit offset : Z)
  : list chunk :=
  [JSONBytes
     (WObject [("jokes", WArray (map handler.marshal_Joke jokes));
               ("total", WInt total);
               ("limit", WInt limit);
               ("offset", WInt offset)])].

(** The result of a scanner function at fuel [f] is the result at every
    fuel from twice the length of the input on. *)
Definition stable_value (f : nat) : Prop :=
  forall d s r, json.scan_value f d s = Some r ->
    (String.length (snd r) < String.length s)%nat
    /\ forall f', (2 * String.length s + 2 <= f')%nat ->
                  json.scan_value f' d s = Some r.

Definition stable_members (f : nat) : Prop :=
  forall d s acc r, json.scan_members f d s acc = Some r ->
    (String.length (snd r) < String.length s)%nat
    /\ forall f', (2 * String.length s + 2 <= f')%nat ->
                  json.scan_members f' d s acc = Some r.

Definition stable_elems (f : nat) : Prop :=
  forall d s acc r, json.scan_elems f d s acc = Some r ->
    (String.length (snd r) < String.length s)%nat
    /\ forall f', (2 * String.length s + 3 <= f')%nat ->
                  json.scan_elems f' d s acc = Some r.

(** Keys in strictly increasing order. *)
Fixpoint increasing (l : list Z) : Prop :=
  match l with
  | [] => True
  | a :: r => (forall b, In b r -> a < b) /\ increasing r
  end.

(** What every request keeps of the table: the handle is open, the keys
    are positive, in increasing order (so pairwise distinct), none above
    [sqlite_sequence], which fits an [int64]; and no joke has an empty
    text. *)
Definition db_wf (d : DB) : Prop :=
  closed d = false
  /\ 0 <= seq d <= repository.MAX_ROWID
  /\ increasing (map ID (rows d))
  /\ (forall j, In j (rows d) -> 1 <= ID j <= seq d /\ Text j <> "").

(** The six methods of [JokeHandler] that the router registers. *)
Definition jokeHandlers : list Handler :=
  [handler.ListJokes; handler.GetRandomJoke; handler.GetJoke;
   handler.CreateJoke; handler.UpdateJoke; handler.DeleteJoke].

(** Text that a JSON string literal holds as it is: ASCII from the space
    on, without the double quote and the backslash. *)
Fixpoint plain (s : string) : bool :=
  match s with
  | EmptyString => true
  | String c r =>
      let v := byte_val c in
      (32 <=? v) && (v <? 128) && negb (v =? 34) && negb (v =? 92) && plain r
  end.

(** * Properties *)

(** ** [strconv] parses exactly the decimal literals that fit *)

Lemma digits_value_ge (s : string) (acc v : Z) :
  0 <= acc -> digits_value s acc = Some v -> acc <= v.
Proof.
  revert acc. induction s as [|c r IH]; intros acc Hacc; cbn [digits_value].
  - intros [= <-]. lia.
  - unfold json.is_digit.
    destruct ((48 <=? byte_val c) && (byte_val c <=? 57)) eqn:D; [|discriminate].
    apply andb_true_iff in D. destruct D as [D1 D2].
    apply Z.leb_le in D1, D2. intros H. apply IH in H; lia.
Qed.

Lemma ParseUint_loop_spec (s : string) (n : Z) :
  0 <= n <= strconv.maxUint64 ->
  match digits_value s n with
  | None =>
      strconv.ParseUint_loop s n = (0, Some strconv.ErrSyntax)
      \/ strconv.ParseUint_loop s n = (strconv.maxUint64, Some strconv.ErrRange)
  | Some v =>
      if v <=? strconv.maxUint64
      then strconv.ParseUint_loop s n = (v, None)
      else strconv.ParseUint_loop s n = (strconv.maxUint64, Some strconv.ErrRange)
  end.
Proof.
  revert n. induction s as [|c r IH]; intros n Hn;
    cbn [digits_value strconv.ParseUint_loop].
  - destruct (n <=? strconv.maxUint64) eqn:E; [reflexivity|].
    apply Z.leb_gt in E. lia.
  - unfold json.is_digit.
    destruct ((48 <=? byte_val c) && (byte_val c <=? 57)) eqn:D.
    2:{ left. reflexivity. }
    apply andb_true_iff in D. destruct D as [D1 D2].
    apply Z.leb_le in D1, D2.
    unfold strconv.maxUint64 in *.
    change (2 ^ 64 - 1) with 18446744073709551615 in *.
    change ((18446744073709551615) / 10 + 1) with 1844674407370955162.
    change (2 ^ 64) with 18446744073709551616.
    destruct (1844674407370955162 <=? n) eqn:C.
    + apply Z.leb_le in C.
      destruct (digits_value r (10 * n + (byte_val c - 48))) as [v|] eqn:V.
      * apply digits_value_ge in V; [|lia].
        destruct (v <=? 18446744073709551615) eqn:E; [|reflexivity].
        apply Z.leb_le in E. lia.
      * right. reflexivity.
    + apply Z.leb_gt in C.
      rewrite (Z.mod_small (n * 10)) by lia.
      destruct (10 * n + (byte_val c - 48) <=? 18446744073709551615) eqn:F.
      * apply Z.leb_le in F.
        rewrite (Z.mod_small (n * 10 + (byte_val c - 48))) by lia.
        replace ((n * 10 + (byte_val c - 48) <? n * 10)
                 || (18446744073709551615 <? n * 10 + (byte_val c - 48)))
          with false
          by (symmetry; apply orb_false_iff; split; apply Z.ltb_ge; lia).
        replace (n * 10 + (byte_val c - 48)) with (10 * n + (byte_val c - 48)) by lia.
        apply IH. lia.
      * apply Z.leb_gt in F.
        assert (W : (n * 10 + (byte_val c - 48)) mod 18446744073709551616
                    = n * 10 + (byte_val c - 48) - 18446744073709551616).
        { symmetry. apply Z.mod_unique with (q := 1); lia. }
        rewrite W.
        replace ((n * 10 + (byte_val c - 48) - 18446744073709551616 <? n * 10)
                 || (18446744073709551615 <? n * 10 + (byte_val c - 48) - 18446744073709551616))
          with true
          by (symmetry; apply orb_true_iff; left; apply Z.ltb_lt; lia).
        destruct (digits_value r (10 * n + (byte_val c - 48))) as [v|] eqn:V.
        -- apply digits_value_ge in V; [|lia].
           destruct (v <=? 18446744073709551615) eqn:E; [|reflexivity].
           apply Z.leb_le in E. lia.
        -- right. reflexivity.
Qed.

Lemma ParseUint_spec (s : string) :
  s <> "" ->
  match digits_value s 0 with
  | None =>
      strconv.ParseUint s = (0, Some strconv.ErrSyntax)
      \/ strconv.ParseUint s = (strconv.maxUint64, Some strconv.ErrRange)
  | Some v =>
      0 <= v /\
      if v <=? strconv.maxUint64
      then strconv.ParseUint s = (v, None)
      else strconv.ParseUint s = (strconv.maxUint64, Some strconv.ErrRange)
  end.
Proof.
  intros Hs.
  assert (E : strconv.ParseUint s = strconv.ParseUint_loop s 0)
    by (destruct s; [contradiction | reflexivity]).
  rewrite E.
  pose proof (ParseUint_loop_spec s 0) as H.
  destruct (digits_value s 0) as [v|] eqn:V.
  - split; [apply (digits_value_ge s 0 v); [lia | assumption]|].
    apply H. unfold strconv.maxUint64. lia.
  - apply H. unfold strconv.maxUint64. lia.
Qed.

Ltac range_cases :=
  unfold fits_int64, strconv.maxUint64 in *;
  change (2 ^ 64 - 1) with 18446744073709551615 in *;
  change (2 ^ 63) with 9223372036854775808 in *;
  repeat match goal with
         | H : (_ <=? _) = true |- _ => apply Z.leb_le in H
         | H : (_ <=? _) = false |- _ => apply Z.leb_gt in H
         | H : (_ <? _) = true |- _ => apply Z.ltb_lt in H
         | H : (_ <? _) = false |- _ => apply Z.ltb_ge in H
         | |- context [?a <=? ?b] => destruct (a <=? b) eqn:?
         | |- context [?a <? ?b] => destruct (a <? b) eqn:?
         end;
  simpl; try lia; try reflexivity; try (eexists _, _; reflexivity).

Lemma ParseInt_spec (s : string) :
  match as_int64 s with
  | Some n => strconv.ParseInt s = (n, None)
  | None => exists v e, strconv.ParseInt s = (v, Some e)
  end.
Proof.
  destruct s as [|c r].
  { exists 0, strconv.ErrSyntax. reflexivity. }
  unfold as_int64, integer_literal, strconv.ParseInt.
  destruct (Ascii.eqb c "-") eqn:Hm;
    [rewrite orb_true_r | destruct (Ascii.eqb c "+") eqn:Hp];
    cbn [orb negb andb].
  - destruct r as [|c' r'].
    { exists 0, strconv.ErrSyntax. reflexivity. }
    pose proof (ParseUint_spec (String c' r')) as H.
    destruct (digits_value (String c' r') 0) as [v|]; cbn [option_map].
    + destruct H as [Hv H]; [discriminate|].
      destruct (v <=? strconv.maxUint64) eqn:E; rewrite H; range_cases.
    + destruct H as [H|H]; [discriminate| |]; rewrite H; range_cases.
  - destruct r as [|c' r'].
    { exists 0, strconv.ErrSyntax. reflexivity. }
    pose proof (ParseUint_spec (String c' r')) as H.
    destruct (digits_value (String c' r') 0) as [v|].
    + destruct H as [Hv H]; [discriminate|].
      destruct (v <=? strconv.maxUint64) eqn:E; rewrite H; range_cases.
    + destruct H as [H|H]; [discriminate| |]; rewrite H; range_cases.
  - pose proof (ParseUint_spec (String c r)) as H.
    destruct (digits_value (String c r) 0) as [v|].
    + destruct H as [Hv H]; [discriminate|].
      destruct (v <=? strconv.maxUint64) eqn:E; rewrite H; range_cases.
    + destruct H as [H|H]; [discriminate| |]; rewrite H; range_cases.
Qed.

Lemma byte_val_range (c : ascii) : 0 <= byte_val c < 256.
Proof.
  unfold byte_val. pose proof (N_ascii_bounded c) as H.
  split; [apply N2Z.is_nonneg|].
  change 256 with (Z.of_N 256). now apply N2Z.inj_lt.
Qed.

Lemma len_nonneg (s : string) : 0 <= len s.
Proof. induction s as [|c r IH]; cbn [len]; lia. Qed.

Lemma Atoi_fast_digits (s : string) (acc : Z) :
  strconv.Atoi_fast s acc = digits_value s acc.
Proof.
  revert acc. induction s as [|c r IH]; intros acc;
    cbn [strconv.Atoi_fast digits_value]; [reflexivity|].
  pose proof (byte_val_range c) as Hc. unfold json.is_digit.
  destruct (48 <=? byte_val c) eqn:D1; cbn [andb].
  - apply Z.leb_le in D1.
    rewrite (Z.mod_small (byte_val c - 48)) by lia.
    destruct (byte_val c <=? 57) eqn:D2.
    + apply Z.leb_le in D2.
      replace (9 <? byte_val c - 48) with false
        by (symmetry; apply Z.ltb_ge; lia).
      rewrite IH. f_equal. lia.
    + apply Z.leb_gt in D2.
      replace (9 <? byte_val c - 48) with true
        by (symmetry; apply Z.ltb_lt; lia).
      reflexivity.
  - apply Z.leb_gt in D1.
    assert (W : (byte_val c - 48) mod 256 = byte_val c - 48 + 256).
    { symmetry. apply Z.mod_unique with (q := -1); lia. }
    rewrite W.
    replace (9 <? byte_val c - 48 + 256) with true
      by (symmetry; apply Z.ltb_lt; lia).
    reflexivity.
Qed.

Lemma digits_value_lt (s : string) (acc v : Z) :
  0 <= acc -> digits_value s acc = Some v ->
  0 <= v < (acc + 1) * 10 ^ len s.
Proof.
  revert acc. induction s as [|c r IH]; intros acc Hacc;
    cbn [digits_value len].
  - intros [= <-]. rewrite Z.pow_0_r. lia.
  - unfold json.is_digit.
    destruct ((48 <=? byte_val c) && (byte_val c <=? 57)) eqn:D; [|discriminate].
    apply andb_true_iff in D. destruct D as [D1 D2].
    apply Z.leb_le in D1, D2. intros H.
    apply IH in H; [|lia].
    pose proof (len_nonneg r) as Hl.
    replace (1 + len r) with (Z.succ (len r)) by lia.
    rewrite Z.pow_succ_r by assumption.
    assert (0 < 10 ^ len r) by (apply Z.pow_pos_nonneg; lia).
    nia.
Qed.

Lemma Atoi_spec (s : string) :
  match as_int64 s with
  | Some n => strconv.Atoi s = (n, None)
  | None => exists v e, strconv.Atoi s = (v, Some e)
  end.
Proof.
  unfold strconv.Atoi.
  destruct ((0 <? len s) && (len s <? 19)) eqn:Hlen; [|apply ParseInt_spec].
  apply andb_true_iff in Hlen. destruct Hlen as [_ Hlen].
  apply Z.ltb_lt in Hlen.
  destruct s as [|c r].
  { exists 0, strconv.ErrSyntax. reflexivity. }
  cbn [len] in Hlen. pose proof (len_nonneg r) as Hr.
  assert (P18 : 10 ^ 18 < 2 ^ 63) by reflexivity.
  assert (Hpow : forall t, 0 <= len t <= 18 -> 10 ^ len t <= 10 ^ 18)
    by (intros t Ht; apply Z.pow_le_mono_r; lia).
  unfold as_int64, integer_literal.
  destruct (Ascii.eqb c "-") eqn:Hm; cbn [orb andb].
  - destruct r as [|c' r'].
    { exists 0, strconv.ErrSyntax. reflexivity. }
    replace (len (String c' r') <? 1) with false
      by (symmetry; apply Z.ltb_ge; cbn [len]; pose proof (len_nonneg r'); lia).
    rewrite Atoi_fast_digits.
    destruct (digits_value (String c' r') 0) as [v|] eqn:V; cbn [option_map].
    + apply digits_value_lt in V; [|lia].
      specialize (Hpow (String c' r')).
      replace (fits_int64 (- v)) with true; [reflexivity|].
      symmetry. unfold fits_int64. apply andb_true_iff.
      split; [apply Z.leb_le | apply Z.ltb_lt]; lia.
    + exists 0, strconv.ErrSyntax. reflexivity.
  - destruct (Ascii.eqb c "+") eqn:Hp; cbn [orb andb].
    + destruct r as [|c' r'].
      { exists 0, strconv.ErrSyntax. reflexivity. }
      replace (len (String c' r') <? 1) with false
        by (symmetry; apply Z.ltb_ge; cbn [len]; pose proof (len_nonneg r'); lia).
      rewrite Atoi_fast_digits.
      destruct (digits_value (String c' r') 0) as [v|] eqn:V.
      * apply digits_value_lt in V; [|lia].
        specialize (Hpow (String c' r')).
        replace (fits_int64 v) with true; [reflexivity|].
        symmetry. unfold fits_int64. apply andb_true_iff.
        split; [apply Z.leb_le | apply Z.ltb_lt]; lia.
      * exists 0, strconv.ErrSyntax. reflexivity.
    + rewrite Atoi_fast_digits.
      destruct (digits_value (String c r) 0) as [v|] eqn:V.
      * apply digits_value_lt in V; [|lia].
        specialize (Hpow (String c r)). cbn [len] in V, Hpow.
        replace (fits_int64 v) with true; [reflexivity|].
        symmetry. unfold fits_int64. apply andb_true_iff.
        split; [apply Z.leb_le | apply Z.ltb_lt]; lia.
      * exists 0, strconv.ErrSyntax. reflexivity.
Qed.


(** ** [FormatInt] and [ParseInt] agree *)

Lemma byte_val_of (z : Z) : 0 <= z < 256 -> byte_val (byte_of z) = z.
Proof.
  intros H. unfold byte_val, byte_of.
  rewrite N_ascii_embedding.
  - now apply Z2N.id.
  - change 256%N with (Z.to_N 256). apply Z2N.inj_lt; lia.
Qed.

Lemma digit_is_digit (d : Z) :
  0 <= d < 10 -> json.is_digit (byte_of (48 + d)) = true.
Proof.
  intros H. unfold json.is_digit. rewrite byte_val_of by lia.
  apply andb_true_iff. split; apply Z.leb_le; lia.
Qed.

Lemma digit_not_sign (c : ascii) :
  json.is_digit c = true ->
  Ascii.eqb c "-" = false /\ Ascii.eqb c "+" = false
  /\ (byte_val c =? 47) = false.
Proof.
  unfold json.is_digit. intros H. apply andb_true_iff in H.
  destruct H as [H1 H2]. apply Z.leb_le in H1, H2.
  repeat split.
  - destruct (Ascii.eqb_spec c "-") as [->|]; [|reflexivity].
    vm_compute in H1. contradiction.
  - destruct (Ascii.eqb_spec c "+") as [->|]; [|reflexivity].
    vm_compute in H1. contradiction.
  - apply Z.eqb_neq. lia.
Qed.

Lemma formatBits_digits (fuel : nat) (u : Z) (a : string) :
  0 <= u < 10 ^ Z.of_nat fuel ->
  digits_value (strconv.formatBits fuel u a) 0 = digits_value a u.
Proof.
  revert u a. induction fuel as [|f IH]; intros u a Hu.
  - cbn [strconv.formatBits]. change (10 ^ Z.of_nat 0) with 1 in Hu.
    replace u with 0 by lia. reflexivity.
  - cbn [strconv.formatBits].
    rewrite Nat2Z.inj_succ, Z.pow_succ_r in Hu by lia.
    destruct (u <? 10) eqn:E.
    + apply Z.ltb_lt in E. cbn [digits_value].
      rewrite digit_is_digit by lia. rewrite byte_val_of by lia.
      f_equal. lia.
    + apply Z.ltb_ge in E.
      rewrite IH by (split; [apply Z.div_pos; lia | apply Z.div_lt_upper_bound; lia]).
      cbn [digits_value].
      pose proof (Z.mod_pos_bound u 10 ltac:(lia)) as Hm.
      rewrite digit_is_digit by lia. rewrite byte_val_of by lia.
      f_equal. pose proof (Z.div_mod u 10 ltac:(lia)). lia.
Qed.

Lemma formatBits_all_digits (fuel : nat) (u : Z) (a : string) :
  0 <= u -> all_digits a = true ->
  all_digits (strconv.formatBits fuel u a) = true.
Proof.
  revert u a. induction fuel as [|f IH]; intros u a Hu Ha;
    cbn [strconv.formatBits]; [assumption|].
  destruct (u <? 10) eqn:E.
  - apply Z.ltb_lt in E. cbn [all_digits]. rewrite digit_is_digit by lia.
    assumption.
  - apply IH; [apply Z.div_pos; lia|].
    cbn [all_digits]. rewrite digit_is_digit; [assumption|].
    apply Z.mod_pos_bound. lia.
Qed.

Lemma formatBits_head (fuel : nat) (u : Z) (a : string) :
  0 <= u ->
  exists c r, strconv.formatBits (S fuel) u a = String c r
              /\ json.is_digit c = true.
Proof.
  revert u a. induction fuel as [|f IH]; intros u a Hu.
  - cbn [strconv.formatBits]. destruct (u <? 10) eqn:E.
    + apply Z.ltb_lt in E. eexists _, _. split; [reflexivity|].
      apply digit_is_digit. lia.
    + eexists _, _. split; [reflexivity|].
      apply digit_is_digit. apply Z.mod_pos_bound. lia.
  - change (strconv.formatBits (S (S f)) u a)
      with (if u <? 10 then String (byte_of (48 + u)) a
            else strconv.formatBits (S f) (u / 10)
                   (String (byte_of (48 + u mod 10)) a)).
    destruct (u <? 10) eqn:E.
    + apply Z.ltb_lt in E. eexists _, _. split; [reflexivity|].
      apply digit_is_digit. lia.
    + apply IH. apply Z.div_pos; lia.
Qed.

(** [FormatInt] writes a literal that [ParseInt] reads back. *)
Lemma FormatInt_literal (i : Z) :
  fits_int64 i = true -> as_int64 (strconv.FormatInt i) = Some i.
Proof.
  intros Hfit. unfold as_int64.
  assert (L : integer_literal (strconv.FormatInt i) = Some i).
  { unfold fits_int64 in Hfit. apply andb_true_iff in Hfit.
    destruct Hfit as [H1 H2]. apply Z.leb_le in H1. apply Z.ltb_lt in H2.
    assert (B : 2 ^ 63 < 10 ^ Z.of_nat 65) by reflexivity.
    unfold strconv.FormatInt. destruct (i <? 0) eqn:E.
    - apply Z.ltb_lt in E. unfold integer_literal.
      change (Ascii.eqb "-" "-") with true. cbv iota.
      destruct (formatBits_head 64 (- i) "") as (c & r & Hf & Hc); [lia|].
      rewrite Hf, <- Hf. rewrite formatBits_digits by lia.
      cbn [digits_value option_map]. f_equal. lia.
    - apply Z.ltb_ge in E.
      destruct (formatBits_head 64 i "") as (c & r & Hf & Hc); [lia|].
      unfold integer_literal. rewrite Hf.
      destruct (digit_not_sign c Hc) as (-> & -> & _).
      rewrite <- Hf. rewrite formatBits_digits by lia. reflexivity. }
  rewrite L, Hfit. reflexivity.
Qed.

Lemma ParseInt_FormatInt (i : Z) :
  fits_int64 i = true -> strconv.ParseInt (strconv.FormatInt i) = (i, None).
Proof.
  intros H. pose proof (ParseInt_spec (strconv.FormatInt i)) as P.
  now rewrite (FormatInt_literal i H) in P.
Qed.

Lemma split_digits (s : string) : all_digits s = true -> api.split s = [s].
Proof.
  induction s as [|c r IH]; cbn [all_digits api.split]; [reflexivity|].
  intros H. apply andb_true_iff in H. destruct H as [Hc Hr].
  destruct (digit_not_sign c Hc) as (_ & _ & ->).
  now rewrite (IH Hr).
Qed.

Lemma split_FormatInt (i : Z) :
  api.split (strconv.FormatInt i) = [strconv.FormatInt i].
Proof.
  unfold strconv.FormatInt. destruct (i <? 0) eqn:E.
  - apply Z.ltb_lt in E. cbn [api.split].
    change (byte_val "-" =? 47) with false. cbv iota.
    rewrite split_digits; [reflexivity|].
    apply formatBits_all_digits; [lia | reflexivity].
  - apply Z.ltb_ge in E. apply split_digits.
    apply formatBits_all_digits; [lia | reflexivity].
Qed.

Lemma FormatInt_not_keyword (i : Z) :
  String.eqb (strconv.FormatInt i) "" = false
  /\ String.eqb (strconv.FormatInt i) "random" = false.
Proof.
  unfold strconv.FormatInt. destruct (i <? 0) eqn:E.
  - split; reflexivity.
  - apply Z.ltb_ge in E.
    destruct (formatBits_head 64 i "" E) as (c & r & -> & Hc).
    split; [reflexivity|]. cbn [String.eqb].
    destruct (Ascii.eqb_spec c "r") as [->|]; [discriminate Hc | reflexivity].
Qed.

(** [GET /api/joke/<id>] reaches [GetJoke] with that id. *)
Lemma joke_path_routed (adminApiKey : string) (id : Z) (w : World) :
  api.serve adminApiKey
    (request "GET" ("/api/joke/" ++ strconv.FormatInt id) [] "") w
  = handler.GetJoke NewRecorder
      (mkRequest "GET" ("/api/joke/" ++ strconv.FormatInt id) [] [] ""
         [("id", strconv.FormatInt id)]) w.
Proof.
  unfold api.serve, api.router, request. cbn [Path].
  change (api.split ("/api/joke/" ++ strconv.FormatInt id))
    with ("" :: "api" :: "joke" :: api.split (strconv.FormatInt id)).
  rewrite split_FormatInt.
  change (String.eqb "" "" && String.eqb "api" "api") with true. cbv iota.
  unfold api.apiRouter.
  change (String.eqb "joke" "admin") with false.
  change (String.eqb "joke" "joke") with true. cbv iota.
  unfold api.jokeRouter.
  destruct (FormatInt_not_keyword id) as [-> ->].
  reflexivity.
Qed.

(** ** The scanner never runs out of fuel *)

Section ScannerFuel.

Local Open Scope nat_scope.

Lemma drop_le (n : nat) (s : string) :
  String.length (drop n s) <= String.length s.
Proof.
  revert s. induction n as [|n IH]; intros s; [destruct s; cbn; lia|].
  destruct s as [|c r]; cbn [drop String.length]; [lia|].
  specialize (IH r). lia.
Qed.

Lemma drop_S_lt (n : nat) (c : ascii) (r : string) :
  String.length (drop (S n) (String c r)) < String.length (String c r).
Proof. cbn [drop String.length]. pose proof (drop_le n r). lia. Qed.

Ltac drops :=
  repeat match goal with
         | |- context [drop (S ?n) (String ?c ?y)] =>
             lazymatch goal with
             | _ : String.length (drop (S n) (String c y))
                   < String.length (String c y) |- _ => fail
             | _ => pose proof (drop_S_lt n c y)
             end
         | |- context [drop ?n ?y] =>
             lazymatch goal with
             | _ : String.length (drop n y) <= String.length y |- _ => fail
             | _ => pose proof (drop_le n y)
             end
         end;
  cbn [String.length] in *; subst; cbn [String.length] in *; lia.

Lemma unquote_stable (f : nat) :
  forall s t, json.unquote f s = Some t ->
  forall f', String.length s < f' -> json.unquote f' s = Some t.
Proof.
  induction f as [|f IH]; intros s t H; [discriminate|].
  intros f' Hf'. destruct f' as [|f']; [lia|].
  cbn [json.unquote] in H |- *. cbv zeta in H |- *.
  destruct s as [|c r]; [assumption|].
  repeat match type of H with
         | context [if ?b then _ else _] => destruct b eqn:?
         | context [match json.unquote f ?x with _ => _ end] =>
             let E := fresh "E" in
             destruct (json.unquote f x) eqn:E; [|discriminate H];
             rewrite (IH _ _ E f'); [|drops]
         | context [match ?t with _ => _ end] =>
             lazymatch t with
             | context [match _ with _ => _ end] => fail
             | _ => destruct t eqn:?
             end
         end;
    try discriminate H; try assumption.
Qed.

Lemma skip_ws_le (s : string) :
  String.length (json.skip_ws s) <= String.length s.
Proof.
  induction s as [|c r IH]; cbn [json.skip_ws String.length]; [lia|].
  destruct (json.isSpace c); cbn [String.length]; lia.
Qed.

Lemma scan_string_lt (s raw rest : string) :
  json.scan_string s = Some (raw, rest) ->
  String.length rest < String.length s.
Proof.
  revert raw rest.
  induction s as [s IH] using (well_founded_induction
                                 (Wf_nat.well_founded_ltof _ String.length)).
  unfold Wf_nat.ltof in IH. intros raw rest H.
  destruct s as [|c r]; [discriminate|].
  cbn [json.scan_string] in H. cbv zeta in H.
  repeat match type of H with
         | context [if ?b then _ else _] => destruct b
         | context [match json.scan_string ?t with _ => _ end] =>
             let E := fresh "E" in
             destruct (json.scan_string t) as [[? ?]|] eqn:E;
             [apply IH in E; [|cbn [String.length]; lia]|]
         | context [match ?t with EmptyString => _ | String _ _ => _ end] =>
             destruct t
         | Some _ = Some _ => injection H as <- <-
         | _ => discriminate H
         end;
    cbn [String.length] in *; lia.
Qed.

Lemma prefix_length (lit s rest : string) :
  json.prefix lit s = Some rest ->
  String.length rest + String.length lit = String.length s.
Proof.
  revert s. induction lit as [|a l IH]; intros s; cbn [json.prefix].
  - intros [= <-]. cbn. lia.
  - destruct s as [|b r]; [discriminate|].
    destruct (Ascii.eqb a b); [|discriminate].
    intros H. apply IH in H. cbn [String.length]. lia.
Qed.

Lemma digits_le (s : string) :
  String.length (json.digits s) <= String.length s.
Proof.
  induction s as [|c r IH]; cbn [json.digits String.length]; [lia|].
  destruct (json.is_digit c); cbn [String.length]; lia.
Qed.

Lemma scan_exp_le (s rest : string) :
  json.scan_exp s = Some rest -> String.length rest <= String.length s.
Proof.
  unfold json.scan_exp. destruct s as [|e r]; [intros [= <-]; lia|].
  destruct ((byte_val e =? 101)%Z || (byte_val e =? 69)%Z);
    [|intros [= <-]; lia].
  destruct r as [|g r']; [discriminate|].
  destruct ((byte_val g =? 43)%Z || (byte_val g =? 45)%Z).
  - destruct r' as [|d r2]; [discriminate|].
    destruct (json.is_digit d); [|discriminate].
    intros [= <-]. pose proof (digits_le r2). cbn [String.length]. lia.
  - destruct (json.is_digit g); [|discriminate].
    intros [= <-]. pose proof (digits_le r'). cbn [String.length]. lia.
Qed.

Lemma scan_frac_le (s rest : string) :
  json.scan_frac s = Some rest -> String.length rest <= String.length s.
Proof.
  unfold json.scan_frac. destruct s as [|p r]; [intros [= <-]; lia|].
  destruct (byte_val p =? 46)%Z; [|apply scan_exp_le].
  destruct r as [|d r1]; [discriminate|].
  destruct (json.is_digit d); [|discriminate].
  intros H. apply scan_exp_le in H. pose proof (digits_le r1).
  cbn [String.length]. lia.
Qed.

Lemma scan_number_lt (s rest : string) :
  json.scan_number s = Some rest -> String.length rest < String.length s.
Proof.
  unfold json.scan_number. destruct s as [|c r]; [discriminate|].
  destruct (byte_val c =? 45)%Z.
  - destruct r as [|c' r']; [discriminate|].
    destruct (byte_val c' =? 48)%Z.
    + intros H. apply scan_frac_le in H. cbn [String.length]. lia.
    + destruct (json.is_digit c'); [|discriminate].
      intros H. apply scan_frac_le in H. pose proof (digits_le r').
      cbn [String.length]. lia.
  - destruct (byte_val c =? 48)%Z.
    + intros H. apply scan_frac_le in H. cbn [String.length]. lia.
    + destruct (json.is_digit c); [|discriminate].
      intros H. apply scan_frac_le in H. pose proof (digits_le r).
      cbn [String.length]. lia.
Qed.

Ltac lens :=
  repeat match goal with
         | H : json.skip_ws ?a = _ |- _ =>
             lazymatch goal with
             | _ : String.length (json.skip_ws a) <= String.length a |- _ => fail
             | _ => pose proof (skip_ws_le a)
             end
         | H : json.scan_string ?a = Some (_, _) |- _ =>
             lazymatch goal with
             | _ : String.length _ < String.length a |- _ => fail
             | _ => pose proof (scan_string_lt _ _ _ H)
             end
         | H : json.prefix ?l ?a = Some _ |- _ =>
             lazymatch goal with
             | _ : _ + String.length l = String.length a |- _ => fail
             | _ => pose proof (prefix_length _ _ _ H)
             end
         | H : json.scan_number ?a = Some _ |- _ =>
             lazymatch goal with
             | _ : String.length _ < String.length a |- _ => fail
             | _ => pose proof (scan_number_lt _ _ H)
             end
         end;
  repeat match goal with
         | H : json.skip_ws ?a = _, L : context [json.skip_ws ?a] |- _ =>
             rewrite H in L
         end;
  cbn [String.length snd fst] in *.

Ltac again :=
  repeat match goal with
         | H : ?x = _ |- context [?x] => rewrite H
         | Hx : forall f, _ <= f -> json.scan_value f ?d ?t = _
           |- context [json.scan_value ?g ?d ?t] => rewrite (Hx g) by lia
         | Hx : forall f, _ <= f -> json.scan_members f ?d ?t ?a = _
           |- context [json.scan_members ?g ?d ?t ?a] => rewrite (Hx g) by lia
         | Hx : forall f, _ <= f -> json.scan_elems f ?d ?t ?a = _
           |- context [json.scan_elems ?g ?d ?t ?a] => rewrite (Hx g) by lia
         end.

Ltac open_up H f :=
  repeat match type of H with
         | context [if ?b then _ else _] => destruct b eqn:?
         | context [match ?t with _ => _ end] =>
             lazymatch t with
             | context [match _ with _ => _ end] => fail
             | _ => destruct t eqn:?
             end
         end;
  try discriminate H.

Ltac finish :=
  lens; split;
  [ lia
  | let f' := fresh "f'" in
    let Hf := fresh "Hf" in
    intros f' Hf; destruct f' as [|f']; [lia|];
    cbn [json.scan_value json.scan_members json.scan_elems];
    unfold option_map; again; try reflexivity ].

Lemma scan_stable (f : nat) :
  stable_value f /\ stable_members f /\ stable_elems f.
Proof.
  induction f as [|f (IHv & IHm & IHe)].
  { split; [|split]; intros ? ? ?; intros; discriminate. }
  split; [|split].
  - intros d s r H. cbn [json.scan_value] in H. unfold option_map in H.
    open_up H f.
    all: try (injection H as <-).
    all: try (apply IHm in H; destruct H as [Hlen Hst]).
    all: try (apply IHe in H; destruct H as [Hlen Hst]).
    all: finish.
  - intros d s acc r H. cbn [json.scan_members] in H.
    open_up H f.
    all: repeat match goal with
                | E : json.scan_value _ _ _ = Some _ |- _ =>
                    apply IHv in E; destruct E as [? ?]
                end.
    all: try (injection H as <-).
    all: try (apply IHm in H; destruct H as [Hlen Hst]).
    all: finish.
  - intros d s acc r H. cbn [json.scan_elems] in H.
    open_up H f.
    all: repeat match goal with
                | E : json.scan_value _ _ _ = Some _ |- _ =>
                    apply IHv in E; destruct E as [? ?]
                end.
    all: try (injection H as <-).
    all: try (apply IHe in H; destruct H as [Hlen Hst]).
    all: finish.
Qed.

(** When the scanner finds a value with some fuel, it finds it with the
    fuel [first_value] gives it. *)
Lemma first_value_adequate (data : string) (f : nat)
      (r : json.value * string) :
  json.scan_value f 0 data = Some r -> json.first_value data = Some r.
Proof.
  intros H. destruct (scan_stable f) as [Hv _].
  apply (Hv 0%Z data r H). lia.
Qed.

Lemma first_value_None (data : string) :
  json.first_value data = None -> forall f, json.scan_value f 0 data = None.
Proof.
  intros Hnone f. destruct (json.scan_value f 0 data) as [r|] eqn:E;
    [|reflexivity].
  apply first_value_adequate in E. congruence.
Qed.

End ScannerFuel.

(** ** The repository methods, run *)

Section RepositoryRuns.

Variable w : World.

Lemma fold_append (l acc : list Joke) :
  fold_left append l (Slice acc) = Slice (acc ++ l).
Proof.
  revert acc; induction l as [|j l IH]; intros acc; simpl.
  - now rewrite app_nil_r.
  - rewrite IH, <- app_assoc. reflexivity.
Qed.

Lemma GetJoke_run (id : Z) :
  repository.GetJoke id w =
  (if closed (db w)
   then inl (Wrapf "error getting joke" (Sentinel sql_errDBClosed))
   else match repository.select_by_id id (rows (db w)) with
        | Some j => inr j
        | None => inl (Wrapf "joke not found" (Sentinel sql_ErrNoRows))
        end,
   noted (CallGetJoke id) w).
Proof.
  cbn [repository.GetJoke repository.SQLiteJokeRepository].
  unfold repository.SQLite.GetJoke, repository.QueryRow, bind, record, get_db, ret, noted.
  simpl. destruct (closed (db w)); [reflexivity|].
  destruct (repository.select_by_id id (rows (db w))); reflexivity.
Qed.

Lemma GetRandomJoke_run :
  repository.GetRandomJoke w =
  (if closed (db w)
   then inl (Wrapf "error getting joke" (Sentinel sql_errDBClosed))
   else match repository.select_random (dice w (rolls w)) (rows (db w)) with
        | Some j => inr j
        | None => inl (Wrapf "joke not found" (Sentinel sql_ErrNoRows))
        end,
   rolled (noted CallGetRandomJoke w)).
Proof.
  cbn [repository.GetRandomJoke repository.SQLiteJokeRepository].
  unfold repository.SQLite.GetRandomJoke, repository.QueryRow, bind, record, roll,
    get_db, ret, noted, rolled.
  simpl. destruct (closed (db w)); [reflexivity|].
  destruct (repository.select_random _ _); reflexivity.
Qed.

Lemma ListJokes_run (limit offset : Z) :
  repository.ListJokes limit offset w =
  (if closed (db w)
   then (nil_slice, Some (Wrapf "error listing jokes" (Sentinel sql_errDBClosed)))
   else (Slice (repository.select_page limit offset (rows (db w))), None),
   noted (CallListJokes limit offset) w).
Proof.
  cbn [repository.ListJokes repository.SQLiteJokeRepository].
  unfold repository.SQLite.ListJokes, repository.Query, bind, record, get_db, ret, noted.
  simpl. destruct (closed (db w)); [reflexivity|].
  now rewrite fold_append.
Qed.

Lemma CountJokes_run :
  repository.CountJokes w =
  (if closed (db w)
   then inl (Wrapf "error counting jokes" (Sentinel sql_errDBClosed))
   else inr (Z.of_nat (List.length (rows (db w)))),
   noted CallCountJokes w).
Proof.
  cbn [repository.CountJokes repository.SQLiteJokeRepository].
  unfold repository.SQLite.CountJokes, repository.QueryRow, bind, record, get_db, ret, noted.
  simpl. destruct (closed (db w)); reflexivity.
Qed.

Lemma CreateJoke_run (joke : Joke) :
  repository.CreateJoke joke w =
  let w1 := ticked 2 (noted (CallCreateJoke (Text joke)) w) in
  if closed (db w)
  then (inl (Wrapf "error creating joke" (Sentinel sql_errDBClosed)), w1)
  else match repository.new_rowid (db w) with
       | None => (inl (Wrapf "error creating joke" (Sentinel sqlite_FULL)), w1)
       | Some id =>
           (inr id,
            set_db (mkDB (rows (db w) ++
                          [mkJoke id (Text joke) (wall w (tick w))
                                  (wall w (S (tick w)))])
                         id false) w1)
       end.
Proof.
  cbn [repository.CreateJoke repository.SQLiteJokeRepository].
  unfold repository.SQLite.CreateJoke, repository.ExecInsert, bind, record, time_Now,
    get_db, put_db, ret, noted, ticked, set_db.
  simpl. destruct (closed (db w)); [reflexivity|].
  destruct (repository.new_rowid (db w)); reflexivity.
Qed.

Lemma UpdateJoke_run (joke : Joke) :
  repository.UpdateJoke joke w =
  let w1 := ticked 1 (noted (CallUpdateJoke (ID joke) (Text joke)) w) in
  if closed (db w)
  then (Some (Wrapf "error updating joke" (Sentinel sql_errDBClosed)), w1)
  else
    (if repository.matching (ID joke) (rows (db w)) =? 0
     then Some (Errorf "joke not found") else None,
     set_db (mkDB (repository.update_rows (ID joke) (Text joke)
                     (wall w (tick w)) (rows (db w)))
                  (seq (db w)) false) w1).
Proof.
  cbn [repository.UpdateJoke repository.SQLiteJokeRepository].
  unfold repository.SQLite.UpdateJoke, repository.ExecWrite, bind, record, time_Now,
    get_db, put_db, ret, noted, ticked, set_db.
  simpl. destruct (closed (db w)); [reflexivity|]. simpl.
  destruct (repository.matching _ _ =? 0); reflexivity.
Qed.

Lemma DeleteJoke_run (id : Z) :
  repository.DeleteJoke id w =
  let w1 := noted (CallDeleteJoke id) w in
  if closed (db w)
  then (Some (Wrapf "error deleting joke" (Sentinel sql_errDBClosed)), w1)
  else
    (if repository.matching id (rows (db w)) =? 0
     then Some (Errorf "joke not found") else None,
     set_db (mkDB (repository.delete_rows id (rows (db w))) (seq (db w)) false)
            w1).
Proof.
  cbn [repository.DeleteJoke repository.SQLiteJokeRepository].
  unfold repository.SQLite.DeleteJoke, repository.ExecWrite, bind, record,
    get_db, put_db, ret, noted, set_db.
  simpl. destruct (closed (db w)); [reflexivity|]. simpl.
  destruct (repository.matching _ _ =? 0); reflexivity.
Qed.

End RepositoryRuns.

(** ** The table *)

Lemma select_by_id_Some (id : Z) (t : list Joke) (j : Joke) :
  repository.select_by_id id t = Some j -> In j t /\ ID j = id.
Proof.
  unfold repository.select_by_id. intros H.
  apply find_some in H. destruct H as [Hin Heq].
  split; [assumption|]. now apply Z.eqb_eq.
Qed.

Lemma select_by_id_None (id : Z) (t : list Joke) :
  repository.select_by_id id t = None <-> (forall j, In j t -> ID j <> id).
Proof.
  unfold repository.select_by_id. split.
  - intros H j Hin Heq.
    pose proof (find_none _ _ H j Hin) as Hn. simpl in Hn.
    apply Z.eqb_neq in Hn. contradiction.
  - intros H. induction t as [|k t IH]; simpl; [reflexivity|].
    destruct (ID k =? id) eqn:E.
    + apply Z.eqb_eq in E. exfalso. apply (H k); [now left | assumption].
    + apply IH. intros j Hin. apply H. now right.
Qed.

Lemma matching_zero (id : Z) (t : list Joke) :
  (repository.matching id t =? 0) = true <->
  repository.select_by_id id t = None.
Proof.
  unfold repository.matching, repository.select_by_id.
  induction t as [|k t IH]; simpl.
  - split; reflexivity.
  - destruct (ID k =? id); simpl.
    + split; intros H; discriminate H.
    + exact IH.
Qed.

Lemma delete_rows_gone (id : Z) (t : list Joke) :
  repository.select_by_id id (repository.delete_rows id t) = None.
Proof.
  apply select_by_id_None. intros j Hin.
  unfold repository.delete_rows in Hin. apply filter_In in Hin.
  destruct Hin as [_ H]. apply negb_true_iff, Z.eqb_neq in H. assumption.
Qed.

Lemma delete_rows_others (id k : Z) (t : list Joke) :
  k <> id ->
  repository.select_by_id k (repository.delete_rows id t) =
  repository.select_by_id k t.
Proof.
  intros Hk. unfold repository.select_by_id, repository.delete_rows.
  induction t as [|j t IH]; simpl; [reflexivity|].
  destruct (ID j =? id) eqn:E; simpl.
  - apply Z.eqb_eq in E.
    destruct (ID j =? k) eqn:E'; [apply Z.eqb_eq in E'; lia | exact IH].
  - destruct (ID j =? k); [reflexivity | exact IH].
Qed.

Lemma fold_max_ge (t : list Joke) (m : Z) :
  m <= fold_left (fun a k => Z.max a (ID k)) t m
  /\ forall j, In j t -> ID j <= fold_left (fun a k => Z.max a (ID k)) t m.
Proof.
  revert m; induction t as [|k t IH]; intros m; simpl.
  - split; [lia | contradiction].
  - destruct (IH (Z.max m (ID k))) as [H1 H2]. split; [lia|].
    intros j [->|Hin]; [lia | now apply H2].
Qed.

Lemma last_rowid_bound (t : list Joke) (j : Joke) :
  In j t -> exists m, repository.last_rowid t = Some m /\ ID j <= m.
Proof.
  destruct t as [|k t]; [contradiction|]. intros Hin. simpl.
  eexists; split; [reflexivity|].
  destruct (fold_max_ge t (ID k)) as [H1 H2].
  destruct Hin as [->|Hin]; [assumption | now apply H2].
Qed.

(** A key handed out by SQLite is larger than every key in the table and
    than every key handed out before, and it fits an [int64]. *)
Lemma new_rowid_fresh (d : DB) (id : Z) :
  repository.new_rowid d = Some id ->
  (forall j, In j (rows d) -> ID j < id)
  /\ seq d < id /\ id <= repository.MAX_ROWID.
Proof.
  unfold repository.new_rowid. intros H.
  destruct (repository.last_rowid (rows d)) as [m|] eqn:L.
  - destruct (repository.MAX_ROWID <=? m) eqn:F1; [discriminate|].
    destruct (repository.MAX_ROWID <=? seq d) eqn:F2; [discriminate|].
    simpl in H. injection H as <-.
    apply Z.leb_gt in F1, F2. split; [|lia].
    intros j Hin. destruct (last_rowid_bound _ _ Hin) as [m' [Hm Hle]].
    rewrite L in Hm. injection Hm as <-. lia.
  - destruct (repository.MAX_ROWID <=? seq d) eqn:F2; [discriminate|].
    simpl in H. injection H as <-. apply Z.leb_gt in F2.
    split; [|unfold repository.MAX_ROWID in *; lia].
    intros j Hin. destruct (rows d) as [|k t]; [contradiction | discriminate L].
Qed.

Lemma select_by_id_last (id : Z) (t : list Joke) (j : Joke) :
  repository.select_by_id id t = None -> ID j = id ->
  repository.select_by_id id (t ++ [j]) = Some j.
Proof.
  unfold repository.select_by_id. intros Hnone Hid.
  induction t as [|k t IH]; simpl in *.
  - now rewrite Hid, Z.eqb_refl.
  - destruct (ID k =? id); [discriminate | now apply IH].
Qed.

Lemma select_page_all (t : list Joke) :
  repository.select_page (Z.of_nat (List.length t)) 0 t = t.
Proof.
  unfold repository.select_page. simpl.
  destruct (Z.of_nat (List.length t) <? 0) eqn:E; [reflexivity|].
  rewrite Nat2Z.id. apply firstn_all.
Qed.

Lemma select_page_beyond (limit offset : Z) (t : list Joke) :
  Z.of_nat (List.length t) <= offset ->
  repository.select_page limit offset t = [].
Proof.
  intros H. unfold repository.select_page.
  assert (E : skipn (Z.to_nat offset) t = []) by (apply skipn_all2; lia).
  rewrite E. destruct (limit <? 0); [reflexivity | apply firstn_nil].
Qed.

(** ** Create, then read back *)

(** C5.  After a successful [CreateJoke], [GetJoke] on the returned id
    yields a record with the text that was given and that id, and the id
    is not zero.  Its two timestamps are two successive readings of the
    clock, so they are equal exactly when the clock did not move between
    them. *)
Theorem C5_create_then_get (w w1 : World) (joke : Joke) (id : Z) :
  0 <= seq (db w) ->
  repository.CreateJoke joke w = (inr id, w1) ->
  exists j w2,
    repository.GetJoke id w1 = (inr j, w2)
    /\ Text j = Text joke /\ ID j = id /\ id <> 0
    /\ CreatedAt j = wall w (tick w)
    /\ UpdatedAt j = wall w (S (tick w))
    /\ (CreatedAt j = UpdatedAt j <-> wall w (tick w) = wall w (S (tick w))).
Proof.
  intros Hseq Hc. rewrite CreateJoke_run in Hc. cbv zeta in Hc.
  destruct (closed (db w)) eqn:Hopen; [discriminate|].
  destruct (repository.new_rowid (db w)) as [k|] eqn:Hk; [|discriminate].
  injection Hc as <- <-.
  destruct (new_rowid_fresh _ _ Hk) as [Hfresh [Hgt _]].
  set (j := mkJoke k (Text joke) (wall w (tick w)) (wall w (S (tick w)))).
  exists j. eexists. rewrite GetJoke_run. simpl.
  rewrite (select_by_id_last k (rows (db w)) j).
  - repeat split; try reflexivity; try (simpl; tauto). lia.
  - apply select_by_id_None. intros i Hin. specialize (Hfresh i Hin). lia.
  - reflexivity.
Qed.

Lemma C5_create_then_get_witness :
  exists j w2,
    repository.GetJoke 1 (snd (repository.CreateJoke (mkJoke 0 "knock knock" 0 0) world0))
    = (inr j, w2)
    /\ Text j = "knock knock" /\ ID j = 1 /\ 1 <> 0
    /\ CreatedAt j = 1700000000000000000
    /\ UpdatedAt j = 1700000000000000001
    /\ (CreatedAt j = UpdatedAt j <-> clock0 0 = clock0 1).
Proof.
  apply (C5_create_then_get world0 _ (mkJoke 0 "knock knock" 0 0) 1).
  - simpl. lia.
  - reflexivity.
Defined.

(** On a clock that advances between two readings, the record read back
    right after its creation has [UpdatedAt] later than [CreatedAt]. *)
Lemma create_then_get_timestamps_differ :
  let '(_, w1) := repository.CreateJoke (mkJoke 0 "knock knock" 0 0) world0 in
  match fst (repository.GetJoke 1 w1) with
  | inr j => CreatedAt j = 1700000000000000000
             /\ UpdatedAt j = 1700000000000000001
             /\ CreatedAt j <> UpdatedAt j
  | inl _ => False
  end.
Proof. vm_compute. repeat split; discriminate. Qed.

(** ** Reading one joke *)

Ltac run_handler :=
  unfold bind, ret;
  rewrite ?GetJoke_run, ?GetRandomJoke_run, ?ListJokes_run, ?CountJokes_run,
    ?CreateJoke_run, ?UpdateJoke_run, ?DeleteJoke_run;
  cbv zeta.

(** C1.  What [GetJoke] answers on an open database: 400 for an id that
    is not an integer, 200 with the record for an id that is stored, and
    for an integer id that matches no record 500, because the error the
    repository returns for it does not wrap [ErrJokeNotFound]. *)
Theorem C1_GetJoke_statuses (w : World) (r : Request) :
  is_open w ->
  let rw := fst (handler.GetJoke NewRecorder r w) in
  match strconv.ParseInt (URLParam r "id") with
  | (_, Some _) =>
      code rw = StatusBadRequest /\ body rw = error_body "Invalid joke ID"
  | (id, None) =>
      match repository.select_by_id id (rows (db w)) with
      | Some j =>
          code rw = StatusOK /\ body rw = joke_body j
          /\ ID j = id /\ In j (rows (db w))
      | None =>
          code rw = StatusInternalServerError
          /\ body rw = error_body "Failed to retrieve joke"
          /\ fst (repository.GetJoke id w)
             = inl (Wrapf "joke not found" (Sentinel sql_ErrNoRows))
          /\ errors_Is (Wrapf "joke not found" (Sentinel sql_ErrNoRows))
                       ErrJokeNotFound = false
      end
  end.
Proof.
  intros Hopen. unfold is_open in Hopen. unfold handler.GetJoke.
  destruct (strconv.ParseInt (URLParam r "id")) as [id [e|]]; simpl.
  - split; reflexivity.
  - run_handler. rewrite Hopen.
    destruct (repository.select_by_id id (rows (db w))) as [j|] eqn:Hsel; simpl.
    + destruct (select_by_id_Some _ _ _ Hsel) as [Hin Hid].
      repeat split; assumption || reflexivity.
    + repeat split; reflexivity.
Qed.

Lemma C1_GetJoke_statuses_witness :
  let rw := fst (handler.GetJoke NewRecorder
                   (mkRequest "GET" "/api/joke/7" [] [] "" [("id", "7")])
                   world0) in
  code rw = StatusInternalServerError
  /\ body rw = error_body "Failed to retrieve joke"
  /\ fst (repository.GetJoke 7 world0)
     = inl (Wrapf "joke not found" (Sentinel sql_ErrNoRows))
  /\ errors_Is (Wrapf "joke not found" (Sentinel sql_ErrNoRows))
               ErrJokeNotFound = false.
Proof.
  exact (C1_GetJoke_statuses world0
           (mkRequest "GET" "/api/joke/7" [] [] "" [("id", "7")])
           eq_refl).
Defined.

(** The same request through the router: an id nobody stored is answered
    500, not 404. *)
Lemma get_missing_joke_is_500 :
  let rw := fst (api.serve "secret" (request "GET" "/api/joke/7" [] "") world0) in
  code rw = 500 /\ body rw = error_body "Failed to retrieve joke".
Proof. vm_compute. split; reflexivity. Qed.

(** ** Creating a joke *)

(** What a 201 from [CreateJoke] means. *)
Lemma CreateJoke_created (w w1 : World) (r : Request) (rw : ResponseWriter) :
  handler.CreateJoke NewRecorder r w = (rw, w1) ->
  code rw = StatusCreated ->
  exists req id,
    handler.Decode (Body r) = inr req
    /\ handler.ReqText req <> ""
    /\ closed (db w) = false
    /\ repository.new_rowid (db w) = Some id
    /\ let j := mkJoke id (handler.ReqText req) (wall w (tick w))
                       (wall w (S (tick w))) in
       db w1 = mkDB (rows (db w) ++ [j]) id false
       /\ repository.select_by_id id (rows (db w1)) = Some j
       /\ body rw = joke_body j
       /\ header rw = [("Location", "/api/jokes/" ++ strconv.FormatInt id);
                       ("Content-Type", "application/json")].
Proof.
  unfold handler.CreateJoke. intros Hrun Hcode.
  destruct (handler.Decode (Body r)) as [e|req] eqn:Hdec.
  { injection Hrun as <- <-. discriminate Hcode. }
  destruct (String.eqb (handler.ReqText req) "") eqn:Htext.
  { injection Hrun as <- <-. discriminate Hcode. }
  revert Hrun. run_handler. simpl.
  destruct (closed (db w)) eqn:Hopen.
  { intros Hrun. revert Hrun. run_handler. intros Hrun.
    injection Hrun as <- <-. discriminate Hcode. }
  destruct (repository.new_rowid (db w)) as [id|] eqn:Hid.
  2:{ intros Hrun. injection Hrun as <- <-. discriminate Hcode. }
  run_handler. simpl.
  destruct (new_rowid_fresh _ _ Hid) as [Hfresh _].
  set (j := mkJoke id (handler.ReqText req) (wall w (tick w))
                   (wall w (S (tick w)))).
  assert (Hsel : repository.select_by_id id (rows (db w) ++ [j]) = Some j).
  { apply select_by_id_last; [|reflexivity].
    apply select_by_id_None. intros i Hin. specialize (Hfresh i Hin). lia. }
  rewrite Hsel. intros Hrun. injection Hrun as <- <-.
  exists req, id. repeat split; try reflexivity; try assumption.
  intros E. rewrite E in Htext. discriminate Htext.
Qed.

(** ** A random joke *)

Lemma select_random_single (k : nat) (j : Joke) :
  repository.select_random k [j] = Some j.
Proof.
  unfold repository.select_random. simpl List.length.
  now rewrite Nat.mod_1_r.
Qed.

Lemma select_random_empty (k : nat) : repository.select_random k [] = None.
Proof. unfold repository.select_random. simpl. now destruct k. Qed.

(** C2.  On an open, empty store [GetRandomJoke] answers 500 (the
    repository's error for an empty table does not wrap [ErrNoJokes]);
    once a create has then answered 201, [GetRandomJoke] answers 200 with
    the joke that was created. *)
Theorem C2_random_joke (w : World) (r rc r' : Request) :
  is_open w ->
  rows (db w) = [] ->
  let '(rw0, w0) := handler.GetRandomJoke NewRecorder r w in
  (code rw0 = StatusInternalServerError
   /\ body rw0 = error_body "Failed to retrieve random joke"
   /\ fst (repository.GetRandomJoke w)
      = inl (Wrapf "joke not found" (Sentinel sql_ErrNoRows))
   /\ errors_Is (Wrapf "joke not found" (Sentinel sql_ErrNoRows)) ErrNoJokes
      = false)
  /\ forall rw1 w1,
       handler.CreateJoke NewRecorder rc w0 = (rw1, w1) ->
       code rw1 = StatusCreated ->
       let rw2 := fst (handler.GetRandomJoke NewRecorder r' w1) in
       code rw2 = StatusOK
       /\ body rw2 = body rw1
       /\ exists j, body rw2 = joke_body j
                    /\ handler.Decode (Body rc)
                       = inr (handler.mkCreateJokeRequest (Text j)).
Proof.
  intros Hopen Hempty. unfold is_open in Hopen.
  unfold handler.GetRandomJoke at 1. run_handler.
  rewrite Hopen, Hempty, select_random_empty. simpl.
  split; [repeat split; reflexivity|].
  intros rw1 w1 Hrun Hcode.
  destruct (CreateJoke_created _ _ _ _ Hrun Hcode)
    as (req & id & Hdec & _ & _ & _ & Hdb & _ & Hbody & _).
  simpl in Hdb. rewrite Hempty in Hdb. simpl in Hdb.
  unfold handler.GetRandomJoke. run_handler. rewrite Hdb. simpl.
  rewrite ?select_random_single. simpl in Hbody |- *.
  repeat split; try (symmetry; exact Hbody).
  eexists. split; [reflexivity|]. simpl. rewrite Hdec. now destruct req.
Qed.

Lemma C2_random_joke_witness :
  let rc := request "POST" "/api/admin/joke" [] (dq "{'text':'why did...'}") in
  let '(rw0, w0) := handler.GetRandomJoke NewRecorder
                      (request "GET" "/api/joke/random" [] "") world0 in
  (code rw0 = StatusInternalServerError
   /\ body rw0 = error_body "Failed to retrieve random joke"
   /\ fst (repository.GetRandomJoke world0)
      = inl (Wrapf "joke not found" (Sentinel sql_ErrNoRows))
   /\ errors_Is (Wrapf "joke not found" (Sentinel sql_ErrNoRows)) ErrNoJokes
      = false)
  /\ forall rw1 w1,
       handler.CreateJoke NewRecorder rc w0 = (rw1, w1) ->
       code rw1 = StatusCreated ->
       let rw2 := fst (handler.GetRandomJoke NewRecorder
                         (request "GET" "/api/joke/random" [] "") w1) in
       code rw2 = StatusOK
       /\ body rw2 = body rw1
       /\ exists j, body rw2 = joke_body j
                    /\ handler.Decode (Body rc)
                       = inr (handler.mkCreateJokeRequest (Text j)).
Proof.
  exact (C2_random_joke world0 (request "GET" "/api/joke/random" [] "")
           (request "POST" "/api/admin/joke" [] (dq "{'text':'why did...'}"))
           (request "GET" "/api/joke/random" [] "") eq_refl eq_refl).
Defined.

(** The scenario through the router. *)
Lemma random_joke_scenario :
  let key := [("Admin-API-Key", "secret")] in
  let '(rw0, w0) :=
    api.serve "secret" (request "GET" "/api/joke/random" [] "") world0 in
  let '(rw1, w1) :=
    api.serve "secret"
      (request "POST" "/api/admin/joke" key (dq "{'text':'why did...'}")) w0 in
  let rw2 :=
    fst (api.serve "secret" (request "GET" "/api/joke/random" [] "") w1) in
  code rw0 = 500 /\ code rw1 = 201 /\ code rw2 = 200
  /\ body rw2 = joke_body (mkJoke 1 "why did..." (clock0 0) (clock0 1)).
Proof. vm_compute. repeat split; reflexivity. Qed.

(** ** The admin gate *)

Lemma AdminAuth_authorized (adminApiKey : string) (next : Handler)
      (rw : ResponseWriter) (r : Request) :
  authorized adminApiKey r ->
  middleware.AdminAuth adminApiKey next rw r = next rw r.
Proof.
  intros [Hne Hkey]. unfold middleware.AdminAuth. rewrite Hkey.
  destruct (String.eqb adminApiKey "") eqn:E.
  - apply String.eqb_eq in E. contradiction.
  - now rewrite String.eqb_refl.
Qed.

Lemma AdminAuth_rejected (adminApiKey : string) (next : Handler)
      (rw : ResponseWriter) (r : Request) (w : World) :
  Header_Get "Admin-API-Key" (Header r) <> adminApiKey ->
  middleware.AdminAuth adminApiKey next rw r w
  = (http.Error rw middleware.Unauthorized StatusUnauthorized, w).
Proof.
  intros Hkey. unfold middleware.AdminAuth.
  destruct (String.eqb _ "") eqn:E; [reflexivity|].
  destruct (String.eqb _ adminApiKey) eqn:E'; [|reflexivity].
  apply String.eqb_eq in E'. contradiction.
Qed.

(** ** The shape of failure responses *)




Ltac cases :=
  repeat (run_handler; simpl;
          match goal with
          | |- context [match ?x with _ => _ end] =>
              lazymatch x with
              | context [match _ with _ => _ end] => fail
              | _ => destruct x eqn:?
              end
          end).







(** *** Who writes the response *)

Ltac leaf := intros ? ? ?; apply by_leaf; simpl; tauto.

Lemma on_dispatches (method : string) (h : Handler) :
  In h leaves -> dispatches (api.on method h).
Proof.
  intros Hh rw r w. unfold api.on.
  destruct (String.eqb (Method r) method); apply by_leaf; simpl; tauto.
Qed.

Lemma on_with_id_dispatches (method id : string) (h : Handler) :
  In h leaves -> dispatches (api.on method (api.with_id id h)).
Proof.
  intros Hh rw r w. unfold api.on, api.with_id.
  destruct (String.eqb (Method r) method); apply by_leaf; simpl; tauto.
Qed.

Lemma AdminAuth_dispatches (adminApiKey : string) (h : Handler) :
  dispatches h -> dispatches (middleware.AdminAuth adminApiKey h).
Proof.
  intros Hh rw r w. unfold middleware.AdminAuth.
  destruct (String.eqb _ ""); [apply by_gate|].
  destruct (negb _); [apply by_gate | apply Hh].
Qed.

Lemma jokeRouter_dispatches (sub : list string) :
  dispatches (api.jokeRouter sub).
Proof.
  unfold api.jokeRouter.
  destruct sub as [|seg [|seg' rest]]; try leaf.
  - apply on_dispatches; simpl; tauto.
  - destruct (String.eqb seg ""); [apply on_dispatches; simpl; tauto|].
    destruct (String.eqb seg "random"); [apply on_dispatches; simpl; tauto|].
    apply on_with_id_dispatches; simpl; tauto.
Qed.

Lemma adminRoutes_dispatches (sub : list string) :
  dispatches (api.adminRoutes sub).
Proof.
  unfold api.adminRoutes.
  destruct sub as [|seg [|id [|x rest]]]; try leaf.
  - destruct (String.eqb seg "joke"); [apply on_dispatches; simpl; tauto | leaf].
  - destruct (String.eqb seg "joke" && negb (String.eqb id "")); [|leaf].
    intros rw r w. cbv beta. unfold api.with_id.
    destruct (String.eqb (Method r) "PUT"); [apply by_leaf; simpl; tauto|].
    destruct (String.eqb (Method r) "DELETE"); apply by_leaf; simpl; tauto.
Qed.

Lemma router_dispatches (adminApiKey : string) :
  dispatches (api.router adminApiKey).
Proof.
  intros rw r w. unfold api.router.
  destruct (api.split (Path r)) as [|e [|seg rest]];
    try (apply by_leaf; simpl; tauto).
  assert (Hapi : dispatches (api.apiRouter adminApiKey rest)).
  { unfold api.apiRouter. destruct rest as [|s sub]; [leaf|].
    destruct (String.eqb s "admin");
      [apply AdminAuth_dispatches, adminRoutes_dispatches|].
    destruct (String.eqb s "joke"); [apply jokeRouter_dispatches | leaf]. }
  destruct rest as [|x rest'].
  - destruct (String.eqb e "" && String.eqb seg "");
      [apply on_dispatches; simpl; tauto|].
    destruct (String.eqb e "" && String.eqb seg "healthz");
      [apply on_dispatches; simpl; tauto|].
    apply by_leaf; simpl; tauto.
  - destruct (String.eqb e "" && String.eqb seg "api");
      [apply Hapi | apply by_leaf; simpl; tauto].
Qed.





(** ** The response to a create *)

(** No route of the service starts with [/api/jokes/]. *)
Lemma jokes_path_not_routed (adminApiKey tail : string) (r : Request)
      (w : World) :
  Path r = "/api/jokes/" ++ tail ->
  api.serve adminApiKey r w
  = (http.Error NewRecorder "404 page not found" StatusNotFound, w).
Proof.
  intros HP. unfold api.serve, api.router. rewrite HP. simpl.
  destruct (api.split tail); reflexivity.
Qed.

(** C6.  What an authorized [CreateJoke] answers on an open database.  A
    body that cannot be decoded, or whose text is empty or missing, is
    answered 400.  Otherwise, when SQLite can still hand out a key, the
    answer is 201 and its body is the created record as read back from the
    store.  That record is served at [/api/joke/<id>]; the [Location]
    header of the 201 is [/api/jokes/<id>], a path the router answers with
    its own 404. *)
Theorem C6_create_response (adminApiKey : string) (w : World) (r : Request) :
  authorized adminApiKey r ->
  store_ok w ->
  let '(rw, w1) :=
    middleware.AdminAuth adminApiKey handler.CreateJoke NewRecorder r w in
  match handler.Decode (Body r) with
  | inl _ =>
      code rw = StatusBadRequest
      /\ body rw = error_body "Invalid request payload"
  | inr req =>
      if String.eqb (handler.ReqText req) ""
      then code rw = StatusBadRequest
           /\ body rw = error_body "Joke text is required"
      else
        match repository.new_rowid (db w) with
        | None => code rw = StatusInternalServerError
        | Some id =>
            code rw = StatusCreated
            /\ (exists j,
                  ID j = id /\ Text j = handler.ReqText req
                  /\ body rw = joke_body j
                  /\ repository.select_by_id id (rows (db w1)) = Some j)
            /\ (forall key',
                  let got :=
                    fst (api.serve key'
                           (request "GET"
                              ("/api/joke/" ++ strconv.FormatInt id) [] "")
                           w1) in
                  code got = StatusOK /\ body got = body rw)
            /\ assoc_get "Location" (header rw)
               = "/api/jokes/" ++ strconv.FormatInt id
            /\ (forall key' w',
                  api.serve key'
                    (request "GET" (assoc_get "Location" (header rw)) [] "")
                    w'
                  = (http.Error NewRecorder "404 page not found"
                       StatusNotFound, w'))
        end
  end.
Proof.
  intros Hauth (Hopen & Hseq & _).
  rewrite (AdminAuth_authorized _ _ _ _ Hauth).
  unfold handler.CreateJoke.
  destruct (handler.Decode (Body r)) as [e|req]; [split; reflexivity|].
  destruct (String.eqb (handler.ReqText req) ""); [split; reflexivity|].
  run_handler. simpl. rewrite Hopen.
  destruct (repository.new_rowid (db w)) as [id|] eqn:Hid; [|reflexivity].
  run_handler. simpl.
  destruct (new_rowid_fresh _ _ Hid) as (Hfresh & Hlo & Hhi).
  set (j := mkJoke id (handler.ReqText req) (wall w (tick w))
                   (wall w (S (tick w)))).
  assert (Hsel : repository.select_by_id id (rows (db w) ++ [j]) = Some j).
  { apply select_by_id_last; [|reflexivity].
    apply select_by_id_None. intros i Hin. specialize (Hfresh i Hin). lia. }
  rewrite Hsel. simpl.
  split; [reflexivity|]. split; [|split; [|split; [reflexivity|]]].
  - exists j. repeat split; assumption || reflexivity.
  - intros key'.
    match goal with
    | |- context [api.serve key' _ ?W] =>
        pose proof (joke_path_routed key' id W) as R
    end.
    cbn [String.append] in R. rewrite R. unfold handler.GetJoke.
    change (URLParam _ "id") with (strconv.FormatInt id).
    rewrite ParseInt_FormatInt.
    + run_handler. simpl. rewrite Hsel. split; reflexivity.
    + unfold fits_int64, repository.MAX_ROWID in *.
      apply andb_true_iff. split; [apply Z.leb_le | apply Z.ltb_lt]; lia.
  - intros key' w'.
    now apply jokes_path_not_routed with (tail := strconv.FormatInt id).
Qed.

Lemma C6_create_response_witness :
  let r := request "POST" "/api/admin/joke" [("Admin-API-Key", "secret")]
             (dq "{'text':'knock knock'}") in
  let '(rw, w1) :=
    middleware.AdminAuth "secret" handler.CreateJoke NewRecorder r world0 in
  code rw = StatusCreated
  /\ (exists j,
        ID j = 1 /\ Text j = "knock knock"
        /\ body rw = joke_body j
        /\ repository.select_by_id 1 (rows (db w1)) = Some j)
  /\ (forall key',
        let got :=
          fst (api.serve key' (request "GET" "/api/joke/1" [] "") w1) in
        code got = StatusOK /\ body got = body rw)
  /\ assoc_get "Location" (header rw) = "/api/jokes/1"
  /\ (forall key' w',
        api.serve key'
          (request "GET" (assoc_get "Location" (header rw)) [] "") w'
        = (http.Error NewRecorder "404 page not found" StatusNotFound, w')).
Proof.
  refine (C6_create_response "secret" world0
            (request "POST" "/api/admin/joke" [("Admin-API-Key", "secret")]
               (dq "{'text':'knock knock'}")) _ _).
  - split; [discriminate | reflexivity].
  - repeat split; simpl; [lia | contradiction].
Defined.

(** The scenario through the router: the record is served under
    [/api/joke/1], the [Location] of the 201 names [/api/jokes/1], which is
    no route; an empty and a missing text are answered 400. *)
Lemma create_scenario :
  let key := [("Admin-API-Key", "secret")] in
  let post data :=
    api.serve "secret" (request "POST" "/api/admin/joke" key data) world0 in
  let '(rw, w1) := post (dq "{'text':'knock knock'}") in
  let location := assoc_get "Location" (header rw) in
  let at_location := fst (api.serve "secret" (request "GET" location [] "") w1) in
  let at_route :=
    fst (api.serve "secret" (request "GET" "/api/joke/1" [] "") w1) in
  code rw = 201 /\ location = "/api/jokes/1"
  /\ code at_location = 404
  /\ body at_location
     = [TextBytes ("404 page not found" ++ String (byte_of 10) "")]
  /\ code at_route = 200 /\ body at_route = body rw
  /\ code (fst (post (dq "{'text':''}"))) = 400
  /\ code (fst (post (dq "{}"))) = 400
  /\ code (fst (post (dq "{'joke':'knock knock'}"))) = 400.
Proof. vm_compute. repeat split; reflexivity. Qed.

(** ** Invariants of the running service *)

(** A property of the database that the three writing statements keep is
    kept by every request. *)
Section Invariant.

Variable P : DB -> Prop.

Hypothesis P_insert : forall d id text created updated,
  closed d = false -> repository.new_rowid d = Some id -> P d ->
  P (mkDB (rows d ++ [mkJoke id text created updated]) id false).

Hypothesis P_update : forall d id text now,
  closed d = false -> P d ->
  P (mkDB (repository.update_rows id text now (rows d)) (seq d) false).

Hypothesis P_delete : forall d id,
  closed d = false -> P d ->
  P (mkDB (repository.delete_rows id (rows d)) (seq d) false).

Ltac keep :=
  simpl;
  first [ assumption
        | apply P_insert; assumption
        | apply P_update; assumption
        | apply P_delete; assumption ].

Lemma leaves_invariant (h : Handler) :
  In h leaves ->
  forall rw r w, P (db w) -> P (db (snd (h rw r w))).
Proof.
  simpl.
  intros [<-|[<-|[<-|[<-|[<-|[<-|[<-|[<-|[<-|[<-|[]]]]]]]]]]];
    intros rw r w HP.
  - unfold handler.ListJokes. cases; keep.
  - unfold handler.GetRandomJoke. cases; keep.
  - unfold handler.GetJoke. cases; keep.
  - unfold handler.CreateJoke. cases; keep.
  - unfold handler.UpdateJoke. cases; keep.
  - unfold handler.DeleteJoke. cases; keep.
  - keep.
  - keep.
  - keep.
  - keep.
Qed.

Lemma serve_invariant (adminApiKey : string) (r : Request) (w : World) :
  P (db w) -> P (db (snd (api.serve adminApiKey r w))).
Proof.
  intros HP. unfold api.serve.
  destruct (router_dispatches adminApiKey NewRecorder r w) as [h r' Hh|].
  - now apply leaves_invariant.
  - exact HP.
Qed.

Lemma later_invariant (w w' : World) :
  later w w' -> P (db w) -> P (db w').
Proof.
  induction 1 as [|key r w' Hl IH]; intros HP; [assumption|].
  apply serve_invariant, IH, HP.
Qed.

End Invariant.

Lemma In_update_rows (id : Z) (text : string) (now : Z) (t : list Joke)
      (j : Joke) :
  In j (repository.update_rows id text now t) ->
  exists k, In k t /\ ID k = ID j.
Proof.
  unfold repository.update_rows. intros H. apply in_map_iff in H.
  destruct H as (k & Hk & Hin). exists k. split; [assumption|].
  destruct (ID k =? id); now subst j.
Qed.

Lemma select_by_id_update (id k : Z) (text : string) (now : Z)
      (t : list Joke) :
  repository.select_by_id k t = None ->
  repository.select_by_id k (repository.update_rows id text now t) = None.
Proof.
  intros H. apply select_by_id_None. intros j Hin.
  destruct (In_update_rows _ _ _ _ _ Hin) as (j0 & Hin0 & <-).
  now apply (proj1 (select_by_id_None k t) H).
Qed.

Lemma db_ok_invariant (adminApiKey : string) (r : Request) (w : World) :
  store_ok w -> store_ok (snd (api.serve adminApiKey r w)).
Proof.
  unfold store_ok. apply serve_invariant; unfold db_ok; simpl.
  - intros d id text created updated _ Hid (Hopen & Hseq & Hids).
    destruct (new_rowid_fresh _ _ Hid) as (Hfresh & Hlo & _).
    repeat split; [lia|].
    intros j Hin. apply in_app_or in Hin. destruct Hin as [Hin|[<-|[]]].
    + specialize (Hfresh j Hin). lia.
    + simpl. lia.
  - intros d id text now _ (Hopen & Hseq & Hids).
    repeat split; [assumption|].
    intros j Hin. destruct (In_update_rows _ _ _ _ _ Hin) as (k & Hk & <-).
    now apply Hids.
  - intros d id _ (Hopen & Hseq & Hids).
    repeat split; [assumption|].
    intros j Hin. apply filter_In in Hin. now apply Hids.
Qed.

Lemma reachable_store_ok (w : World) : reachable w -> store_ok w.
Proof.
  induction 1 as [clock draws | key r w Hr IH | clock draws w Hr IH].
  - repeat split; simpl; [lia | contradiction].
  - now apply db_ok_invariant.
  - exact IH.
Qed.

(** A retired key stays retired, whatever requests follow. *)
Lemma retired_forever (id : Z) (w w' : World) :
  later w w' -> retired id (db w) -> retired id (db w').
Proof.
  apply later_invariant; unfold retired; simpl.
  - intros d k text created updated _ Hk [Hnone Hle].
    destruct (new_rowid_fresh _ _ Hk) as (_ & Hlo & _).
    split; [|lia].
    apply select_by_id_None. intros j Hin.
    apply in_app_or in Hin. destruct Hin as [Hin|[<-|[]]].
    + now apply (proj1 (select_by_id_None id (rows d)) Hnone).
    + simpl. lia.
  - intros d k text now _ [Hnone Hle].
    split; [now apply select_by_id_update | assumption].
  - intros d k _ [Hnone Hle]. split; [|assumption].
    destruct (Z.eq_dec id k) as [->|Hne].
    + apply delete_rows_gone.
    + now rewrite delete_rows_others.
Qed.

(** ** Deleting a joke *)

Lemma delete_rows_nothing (id : Z) (t : list Joke) :
  repository.select_by_id id t = None -> repository.delete_rows id t = t.
Proof.
  unfold repository.select_by_id, repository.delete_rows.
  induction t as [|j t IH]; simpl; [reflexivity|].
  destruct (ID j =? id); simpl; [discriminate|].
  intros H. now rewrite IH.
Qed.

(** C3.  What an authorized [DeleteJoke] answers on an open database: 400
    for an id that is not an integer; 204 with no body for a stored id,
    whose rows are gone afterwards, and stay gone whatever requests
    follow, while all other rows are untouched; and for an integer id that
    matches no record 500, because the repository reports zero affected
    rows with a fresh error that is not [ErrJokeNotFound]. *)
Theorem C3_DeleteJoke_statuses (adminApiKey : string) (w : World)
        (r : Request) :
  authorized adminApiKey r ->
  store_ok w ->
  let '(rw, w1) :=
    middleware.AdminAuth adminApiKey handler.DeleteJoke NewRecorder r w in
  match strconv.ParseInt (URLParam r "id") with
  | (_, Some _) =>
      code rw = StatusBadRequest /\ body rw = error_body "Invalid joke ID"
      /\ w1 = w
  | (id, None) =>
      match repository.select_by_id id (rows (db w)) with
      | Some _ =>
          code rw = StatusNoContent /\ body rw = []
          /\ (forall w', later w1 w' ->
                repository.select_by_id id (rows (db w')) = None)
          /\ (forall k, k <> id ->
                repository.select_by_id k (rows (db w1))
                = repository.select_by_id k (rows (db w)))
          /\ fst (repository.GetJoke id w1)
             = inl (Wrapf "joke not found" (Sentinel sql_ErrNoRows))
      | None =>
          code rw = StatusInternalServerError
          /\ body rw = error_body "Failed to delete joke"
          /\ fst (repository.DeleteJoke id w) = Some (Errorf "joke not found")
          /\ errors_Is (Errorf "joke not found") ErrJokeNotFound = false
          /\ rows (db w1) = rows (db w)
      end
  end.
Proof.
  intros Hauth (Hopen & _ & Hids).
  rewrite (AdminAuth_authorized _ _ _ _ Hauth).
  unfold handler.DeleteJoke.
  destruct (strconv.ParseInt (URLParam r "id")) as [id [e|]]; simpl.
  - repeat split; reflexivity.
  - run_handler. rewrite Hopen.
    destruct (repository.select_by_id id (rows (db w))) as [j|] eqn:Hsel.
    + destruct (repository.matching id (rows (db w)) =? 0) eqn:Hm.
      { apply matching_zero in Hm. rewrite Hm in Hsel. discriminate Hsel. }
      simpl. rewrite GetJoke_run. simpl.
      rewrite delete_rows_gone.
      split; [reflexivity|]. split; [reflexivity|].
      split; [|split; [|reflexivity]].
      * intros w' Hl.
        apply (retired_forever id _ w' Hl). split; simpl.
        -- apply delete_rows_gone.
        -- destruct (select_by_id_Some _ _ _ Hsel) as [Hin <-].
           now apply Hids.
      * intros k Hk. now apply delete_rows_others.
    + pose proof (proj2 (matching_zero id (rows (db w))) Hsel) as Hm.
      rewrite Hm. simpl. rewrite (delete_rows_nothing _ _ Hsel).
      repeat split; reflexivity.
Qed.

Lemma C3_DeleteJoke_statuses_witness :
  let r := mkRequest "DELETE" "/api/admin/joke/999"
             [] [("Admin-API-Key", "secret")] "" [("id", "999")] in
  let '(rw, w1) :=
    middleware.AdminAuth "secret" handler.DeleteJoke NewRecorder r world0 in
  code rw = StatusInternalServerError
  /\ body rw = error_body "Failed to delete joke"
  /\ fst (repository.DeleteJoke 999 world0) = Some (Errorf "joke not found")
  /\ errors_Is (Errorf "joke not found") ErrJokeNotFound = false
  /\ rows (db w1) = rows (db world0).
Proof.
  refine (C3_DeleteJoke_statuses "secret" world0
            (mkRequest "DELETE" "/api/admin/joke/999"
               [] [("Admin-API-Key", "secret")] "" [("id", "999")]) _ _).
  - split; [discriminate | reflexivity].
  - repeat split; simpl; [lia | contradiction].
Defined.

(** The same through the router, and the deletion of a stored joke. *)
Lemma delete_scenario :
  let key := [("Admin-API-Key", "secret")] in
  let rw0 :=
    fst (api.serve "secret" (request "DELETE" "/api/admin/joke/999" key "")
           world0) in
  let w1 :=
    snd (api.serve "secret"
           (request "POST" "/api/admin/joke" key (dq "{'text':'knock knock'}"))
           world0) in
  let '(rw2, w2) :=
    api.serve "secret" (request "DELETE" "/api/admin/joke/1" key "") w1 in
  code rw0 = 500 /\ body rw0 = error_body "Failed to delete joke"
  /\ code rw2 = 204 /\ body rw2 = [] /\ rows (db w2) = [].
Proof. vm_compute. repeat split; reflexivity. Qed.

(** ** Listing *)

Lemma limit_param (s : string) :
  (if negb (String.eqb s "") then
     match strconv.Atoi s with
     | (parsedLimit, None) => if 0 <? parsedLimit then parsedLimit else 10
     | (_, Some _) => 10
     end
   else 10)
  = match as_int64 s with
    | Some n => if 0 <? n then n else 10
    | None => 10
    end.
Proof.
  pose proof (Atoi_spec s) as H.
  destruct (String.eqb_spec s "") as [->|_]; [reflexivity|]. cbn [negb].
  destruct (as_int64 s) as [n|].
  - now rewrite H.
  - destruct H as (v & e & ->). reflexivity.
Qed.

Lemma offset_param (s : string) :
  (if negb (String.eqb s "") then
     match strconv.Atoi s with
     | (parsedOffset, None) => if 0 <=? parsedOffset then parsedOffset else 0
     | (_, Some _) => 0
     end
   else 0)
  = match as_int64 s with
    | Some n => if 0 <=? n then n else 0
    | None => 0
    end.
Proof.
  pose proof (Atoi_spec s) as H.
  destruct (String.eqb_spec s "") as [->|_]; [reflexivity|]. cbn [negb].
  destruct (as_int64 s) as [n|].
  - now rewrite H.
  - destruct H as (v & e & ->). reflexivity.
Qed.

(** What [ListJokes] does on an open database. *)
Lemma ListJokes_run_open (w : World) (r : Request) :
  is_open w ->
  handler.ListJokes NewRecorder r w
  = (handler.respondWithJSON NewRecorder StatusOK
       (handler.OfList
          (handler.mkJokeListResponse
             (Slice (repository.select_page (spec_limit r) (spec_offset r)
                       (rows (db w))))
             (Z.of_nat (List.length (rows (db w))))
             (spec_limit r) (spec_offset r))),
     noted CallCountJokes
       (noted (CallListJokes (spec_limit r) (spec_offset r)) w)).
Proof.
  intros Hopen. unfold is_open in Hopen.
  unfold handler.ListJokes. cbv zeta.
  rewrite limit_param, offset_param.
  fold (spec_limit r). fold (spec_offset r).
  run_handler. rewrite Hopen. cbv iota beta.
  run_handler. cbn [db noted]. rewrite Hopen. reflexivity.
Qed.

(** C7.  On an open database every list request is answered 200, whatever
    its [limit] and [offset] parameters are; the limit in effect is the
    [limit] parameter when that parses as a positive integer and 10
    otherwise, the offset in effect is the [offset] parameter when that
    parses as a non-negative integer and 0 otherwise.  They are the values
    the repository is called with and the values the response reports. *)
Theorem C7_list_parameters (w : World) (r : Request) :
  is_open w ->
  let '(rw, w1) := handler.ListJokes NewRecorder r w in
  code rw = StatusOK
  /\ body rw
     = list_body (repository.select_page (spec_limit r) (spec_offset r)
                    (rows (db w)))
                 (Z.of_nat (List.length (rows (db w))))
                 (spec_limit r) (spec_offset r)
  /\ calls w1
     = (calls w ++ [CallListJokes (spec_limit r) (spec_offset r);
                    CallCountJokes])%list
  /\ 0 < spec_limit r /\ 0 <= spec_offset r.
Proof.
  intros Hopen. rewrite (ListJokes_run_open w r Hopen).
  split; [reflexivity|]. split; [reflexivity|]. split.
  - cbn [calls noted]. now rewrite <- app_assoc.
  - unfold spec_limit, spec_offset. split.
    + destruct (as_int64 _) as [n|]; [|lia].
      destruct (0 <? n) eqn:E; [apply Z.ltb_lt in E|]; lia.
    + destruct (as_int64 _) as [n|]; [|lia].
      destruct (0 <=? n) eqn:E; [apply Z.leb_le in E|]; lia.
Qed.

Lemma C7_list_parameters_witness :
  let r := mkRequest "GET" "/api/joke/"
             [("limit", "99999999999999999999"); ("offset", "-3")] [] "" [] in
  let '(rw, w1) := handler.ListJokes NewRecorder r world0 in
  code rw = StatusOK
  /\ body rw = list_body [] 0 10 0
  /\ calls w1 = [CallListJokes 10 0; CallCountJokes]
  /\ 0 < 10 /\ 0 <= 0.
Proof.
  exact (C7_list_parameters world0
           (mkRequest "GET" "/api/joke/"
              [("limit", "99999999999999999999"); ("offset", "-3")] [] "" [])
           eq_refl).
Defined.

(** Parameters at work, through the router: fifteen jokes, then a page of
    five; and parameters that are not taken. *)
Lemma list_scenario :
  let key := [("Admin-API-Key", "secret")] in
  let post w :=
    snd (api.serve "secret"
           (request "POST" "/api/admin/joke" key (dq "{'text':'knock knock'}"))
           w) in
  let w15 := Nat.iter 15 post world0 in
  let get q :=
    fst (api.serve "secret" (mkRequest "GET" "/api/joke/" q [] "" []) w15) in
  let ids rw :=
    match body rw with
    | [JSONBytes (WObject (("jokes", WArray l) :: rest))] =>
        (map (fun j => match j with
                       | WObject (("id", WInt i) :: _) => i
                       | _ => 0
                       end) l, rest)
    | _ => ([], [])
    end in
  ids (get [("limit", "5"); ("offset", "10")])
  = ([11; 12; 13; 14; 15],
     [("total", WInt 15); ("limit", WInt 5); ("offset", WInt 10)])
  /\ ids (get [("limit", "0"); ("offset", "abc")])
     = ([1; 2; 3; 4; 5; 6; 7; 8; 9; 10],
        [("total", WInt 15); ("limit", WInt 10); ("offset", WInt 0)])
  /\ ids (get [("limit", "+3"); ("offset", "-1")])
     = ([1; 2; 3],
        [("total", WInt 15); ("limit", WInt 3); ("offset", WInt 0)]).
Proof. vm_compute. repeat split; reflexivity. Qed.

(** On an open database the count is the number of rows, and a list
    limited to it, from offset 0, is all of them. *)
Lemma count_then_list (w : World) :
  is_open w ->
  repository.CountJokes w
  = (inr (Z.of_nat (List.length (rows (db w)))), noted CallCountJokes w)
  /\ fst (repository.ListJokes (Z.of_nat (List.length (rows (db w)))) 0
            (noted CallCountJokes w))
     = (Slice (rows (db w)), None).
Proof.
  intros Hopen. unfold is_open in Hopen.
  rewrite CountJokes_run, Hopen. split; [reflexivity|].
  rewrite ListJokes_run. cbn [db noted fst]. now rewrite Hopen, select_page_all.
Qed.

(** C8.  In every reachable state [CountJokes] succeeds, and [ListJokes]
    called with that count as limit and offset 0 returns, without error,
    a sequence of exactly that many records: all the rows of the table. *)
Theorem C8_count_is_list_length (w : World) :
  reachable w ->
  exists n jokes w1 w2,
    repository.CountJokes w = (inr n, w1)
    /\ repository.ListJokes n 0 w1 = ((jokes, None), w2)
    /\ slice_len jokes = n
    /\ jokes = Slice (rows (db w)).
Proof.
  intros Hr. destruct (reachable_store_ok w Hr) as [Hopen _].
  destruct (count_then_list w Hopen) as [Hcount Hlist].
  exists (Z.of_nat (List.length (rows (db w)))).
  exists (Slice (rows (db w))).
  exists (noted CallCountJokes w).
  exists (snd (repository.ListJokes (Z.of_nat (List.length (rows (db w)))) 0
                 (noted CallCountJokes w))).
  split; [exact Hcount|]. split; [|split; reflexivity].
  rewrite <- Hlist. now destruct (repository.ListJokes _ _ _).
Qed.

Lemma C8_count_is_list_length_witness :
  let w :=
    snd (api.serve "secret"
           (request "POST" "/api/admin/joke" [("Admin-API-Key", "secret")]
              (dq "{'text':'knock knock'}"))
           world0) in
  exists n jokes w1 w2,
    repository.CountJokes w = (inr n, w1)
    /\ repository.ListJokes n 0 w1 = ((jokes, None), w2)
    /\ slice_len jokes = n
    /\ jokes = Slice (rows (db w)).
Proof.
  apply C8_count_is_list_length. apply reach_serve, reach_start.
Defined.

(** C9.  On an open database [ListJokes] returns an allocated slice and
    no error, whatever limit and offset it is called with; the slice is
    empty when the store is or when the offset is not below the number of
    rows.  The [jokes] member of the handler's response is then a JSON
    array, [[]] in those cases, and not [null]. *)
Theorem C9_list_is_never_null (w : World) (r : Request) (limit offset : Z) :
  is_open w ->
  (exists l,
     fst (repository.ListJokes limit offset w) = (Slice l, None)
     /\ handler.marshal_slice (Slice l) = WArray (map handler.marshal_Joke l)
     /\ handler.marshal_slice (Slice l) <> WNull
     /\ (rows (db w) = [] \/ Z.of_nat (List.length (rows (db w))) <= offset ->
         l = []))
  /\ (exists l total lim off,
        body (fst (handler.ListJokes NewRecorder r w))
        = [JSONBytes (WObject [("jokes", WArray l); ("total", WInt total);
                               ("limit", WInt lim); ("offset", WInt off)])]
        /\ (rows (db w) = [] -> l = [])).
Proof.
  intros Hopen. split.
  - rewrite ListJokes_run. unfold is_open in Hopen. rewrite Hopen.
    eexists. split; [reflexivity|]. split; [reflexivity|].
    split; [discriminate|].
    intros [He|Ho].
    + rewrite He. unfold repository.select_page. rewrite skipn_nil.
      destruct (limit <? 0); [reflexivity | apply firstn_nil].
    + now apply select_page_beyond.
  - rewrite (ListJokes_run_open w r Hopen).
    eexists _, _, _, _. split; [reflexivity|].
    intros He. rewrite He. unfold repository.select_page. rewrite skipn_nil.
    destruct (spec_limit r <? 0); [reflexivity|]. now rewrite firstn_nil.
Qed.

Lemma C9_list_is_never_null_witness :
  (exists l,
     fst (repository.ListJokes 5 100 world0) = (Slice l, None)
     /\ handler.marshal_slice (Slice l) = WArray (map handler.marshal_Joke l)
     /\ handler.marshal_slice (Slice l) <> WNull
     /\ (rows (db world0) = []
         \/ Z.of_nat (List.length (rows (db world0))) <= 100 ->
         l = []))
  /\ (exists l total lim off,
        body (fst (handler.ListJokes NewRecorder
                     (request "GET" "/api/joke/" [] "") world0))
        = [JSONBytes (WObject [("jokes", WArray l); ("total", WInt total);
                               ("limit", WInt lim); ("offset", WInt off)])]
        /\ (rows (db world0) = [] -> l = [])).
Proof.
  exact (C9_list_is_never_null world0 (request "GET" "/api/joke/" [] "")
           5 100 eq_refl).
Defined.

(** The only nil slice [ListJokes] ever returns comes with an error, and
    the handler then writes no [jokes] member at all. *)
Lemma ListJokes_nil_only_on_error (w : World) (limit offset : Z) :
  match fst (repository.ListJokes limit offset w) with
  | (jokes, None) => exists l, jokes = Slice l
  | (jokes, Some _) => jokes = nil_slice /\ closed (db w) = true
  end.
Proof.
  rewrite ListJokes_run. destruct (closed (db w)); cbn [fst].
  - split; reflexivity.
  - eexists. reflexivity.
Qed.

(** ** Bodies that cannot be decoded *)

Lemma first_value_None_invalid (data : string) :
  json.first_value data = None -> json.Valid data = false.
Proof. unfold json.Valid. now intros ->. Qed.

Lemma first_value_None_Decode (data : string) :
  json.first_value data = None -> exists e, handler.Decode data = inl e.
Proof. unfold handler.Decode. intros ->. eexists. reflexivity. Qed.

(** A body that [Decode] rejects is answered 400 by both handlers, and
    the world is left as it was: no repository method has been called. *)
Lemma undecodable_is_400 (w : World) (r : Request) (e : error) :
  handler.Decode (Body r) = inl e ->
  (let '(rw, w1) := handler.CreateJoke NewRecorder r w in
   code rw = StatusBadRequest /\ error_shaped rw /\ w1 = w)
  /\ (let '(rw, w1) := handler.UpdateJoke NewRecorder r w in
      code rw = StatusBadRequest /\ error_shaped rw /\ w1 = w).
Proof.
  intros Hdec. unfold handler.CreateJoke, handler.UpdateJoke. rewrite Hdec.
  split.
  - split; [reflexivity|]. split; [|reflexivity].
    eexists. repeat split; reflexivity.
  - destruct (strconv.ParseInt (URLParam r "id")) as [id [ne|]];
      (split; [reflexivity|]; split; [|reflexivity]);
      eexists; repeat split; reflexivity.
Qed.

(** C10, as the code has it.  When the body of an authorized create or
    update does not begin with a well-formed JSON value, which makes it
    invalid JSON, the handler answers 400 with an error object and the
    world is left as it was: no repository method has been called and the
    store is unchanged. *)
Theorem C10_unreadable_body (adminApiKey : string) (w : World) (r : Request) :
  authorized adminApiKey r ->
  json.first_value (Body r) = None ->
  json.Valid (Body r) = false
  /\ (let '(rw, w1) :=
        middleware.AdminAuth adminApiKey handler.CreateJoke NewRecorder r w in
      code rw = StatusBadRequest /\ error_shaped rw
      /\ w1 = w /\ calls w1 = calls w /\ db w1 = db w)
  /\ (let '(rw, w1) :=
        middleware.AdminAuth adminApiKey handler.UpdateJoke NewRecorder r w in
      code rw = StatusBadRequest /\ error_shaped rw
      /\ w1 = w /\ calls w1 = calls w /\ db w1 = db w).
Proof.
  intros Hauth Hnone.
  split; [now apply first_value_None_invalid|].
  destruct (first_value_None_Decode _ Hnone) as [e Hdec].
  destruct (undecodable_is_400 w r e Hdec) as [Hc Hu].
  rewrite !(AdminAuth_authorized _ _ _ _ Hauth).
  destruct (handler.CreateJoke NewRecorder r w) as [rw1 w1].
  destruct (handler.UpdateJoke NewRecorder r w) as [rw2 w2].
  destruct Hc as (? & ? & ->). destruct Hu as (? & ? & ->).
  repeat split; assumption.
Qed.

Lemma C10_unreadable_body_witness :
  let r := mkRequest "PUT" "/api/admin/joke/1" []
             [("Admin-API-Key", "secret")] (dq "{'text':'knock knock'")
             [("id", "1")] in
  json.Valid (Body r) = false
  /\ (let '(rw, w1) :=
        middleware.AdminAuth "secret" handler.CreateJoke NewRecorder r world0 in
      code rw = StatusBadRequest /\ error_shaped rw
      /\ w1 = world0 /\ calls w1 = calls world0 /\ db w1 = db world0)
  /\ (let '(rw, w1) :=
        middleware.AdminAuth "secret" handler.UpdateJoke NewRecorder r world0 in
      code rw = StatusBadRequest /\ error_shaped rw
      /\ w1 = world0 /\ calls w1 = calls world0 /\ db w1 = db world0).
Proof.
  refine (C10_unreadable_body "secret" world0
            (mkRequest "PUT" "/api/admin/joke/1" []
               [("Admin-API-Key", "secret")] (dq "{'text':'knock knock'")
               [("id", "1")]) _ eq_refl).
  split; [discriminate | reflexivity].
Defined.

(** A body that is not valid JSON, because bytes follow its first value,
    is not answered 400: the create goes through, and so does the update
    of the joke just created. *)
Lemma C10_trailing_bytes_are_not_read :
  let key := [("Admin-API-Key", "secret")] in
  let data := dq "{'text':'knock knock'}]" in
  let '(rw1, w1) :=
    api.serve "secret" (request "POST" "/api/admin/joke" key data) world0 in
  let '(rw2, w2) :=
    api.serve "secret" (request "PUT" "/api/admin/joke/1" key data) w1 in
  json.Valid data = false
  /\ code rw1 = StatusCreated
  /\ calls w1 = [CallCreateJoke "knock knock"; CallGetJoke 1]
  /\ db w1 <> db world0
  /\ code rw2 = StatusOK
  /\ calls w2 = [CallCreateJoke "knock knock"; CallGetJoke 1; CallGetJoke 1;
                 CallUpdateJoke 1 "knock knock"; CallGetJoke 1].
Proof. vm_compute. repeat split; try reflexivity. discriminate. Qed.

(** * Further properties

    What the code shows beyond the sentences above: the update path, the
    shape of the table in every state the service can reach, which
    requests write, the pages of a list, the draw of a random joke, the
    keys of new rows, the ids and bodies that are accepted, a closed
    handle, and the routes around the handlers. *)

(** ** Updating a joke *)

Lemma select_by_id_updated (id : Z) (text : string) (now : Z)
      (t : list Joke) (j : Joke) :
  repository.select_by_id id t = Some j ->
  repository.select_by_id id (repository.update_rows id text now t)
  = Some (mkJoke id text (CreatedAt j) now).
Proof.
  unfold repository.select_by_id, repository.update_rows.
  induction t as [|k t IH]; simpl; [discriminate|].
  destruct (ID k =? id) eqn:E; simpl; rewrite E.
  - intros [= <-]. apply Z.eqb_eq in E. now rewrite E.
  - exact IH.
Qed.

Lemma update_rows_others (id k : Z) (text : string) (now : Z)
      (t : list Joke) :
  k <> id ->
  repository.select_by_id k (repository.update_rows id text now t)
  = repository.select_by_id k t.
Proof.
  intros Hk. unfold repository.select_by_id, repository.update_rows.
  induction t as [|j t IH]; simpl; [reflexivity|].
  destruct (ID j =? id) eqn:E; simpl.
  - apply Z.eqb_eq in E.
    destruct (id =? k) eqn:E1; [apply Z.eqb_eq in E1; lia|].
    destruct (ID j =? k) eqn:E2; [apply Z.eqb_eq in E2; lia | exact IH].
  - destruct (ID j =? k); [reflexivity | exact IH].
Qed.

Lemma update_rows_ids (id : Z) (text : string) (now : Z) (t : list Joke) :
  map ID (repository.update_rows id text now t) = map ID t.
Proof.
  unfold repository.update_rows. rewrite map_map. apply map_ext.
  intros j. now destruct (ID j =? id).
Qed.

Lemma update_rows_nothing (id : Z) (text : string) (now : Z)
      (t : list Joke) :
  repository.select_by_id id t = None ->
  repository.update_rows id text now t = t.
Proof.
  unfold repository.select_by_id, repository.update_rows.
  induction t as [|j t IH]; simpl; [reflexivity|].
  destruct (ID j =? id); [discriminate|]. intros H. now rewrite IH.
Qed.

(** X1.  What [UpdateJoke] answers to an authorized request on an open
    database, in the order of its checks: 400 for an id that is not an
    integer, 400 for a body that does not decode, 400 for an empty text,
    all three before any repository call; 500 for an integer id that no
    row has (the repository's error does not wrap [ErrJokeNotFound]), the
    table unchanged; and for a stored id 200 with the row read back: the
    new text, the old creation time and the one clock reading of the
    update, after the calls [GetJoke], [UpdateJoke], [GetJoke]. *)
Theorem UpdateJoke_statuses (adminApiKey : string) (w : World) (r : Request) :
  authorized adminApiKey r ->
  is_open w ->
  let '(rw, w1) :=
    middleware.AdminAuth adminApiKey handler.UpdateJoke NewRecorder r w in
  match strconv.ParseInt (URLParam r "id") with
  | (_, Some _) =>
      code rw = StatusBadRequest /\ body rw = error_body "Invalid joke ID"
      /\ w1 = w
  | (id, None) =>
      match handler.Decode (Body r) with
      | inl _ =>
          code rw = StatusBadRequest
          /\ body rw = error_body "Invalid request payload" /\ w1 = w
      | inr req =>
          if String.eqb (handler.ReqText req) ""
          then code rw = StatusBadRequest
               /\ body rw = error_body "Joke text is required" /\ w1 = w
          else
            match repository.select_by_id id (rows (db w)) with
            | None =>
                code rw = StatusInternalServerError
                /\ body rw = error_body "Failed to retrieve joke"
                /\ db w1 = db w
                /\ calls w1 = (calls w ++ [CallGetJoke id])%list
            | Some j =>
                let now := wall w (tick w) in
                code rw = StatusOK
                /\ body rw
                   = joke_body (mkJoke id (handler.ReqText req)
                                       (CreatedAt j) now)
                /\ rows (db w1)
                   = repository.update_rows id (handler.ReqText req) now
                       (rows (db w))
                /\ calls w1
                   = (calls w ++ [CallGetJoke id;
                                  CallUpdateJoke id (handler.ReqText req);
                                  CallGetJoke id])%list
            end
      end
  end.
Proof.
  intros Hauth Hopen. unfold is_open in Hopen.
  rewrite (AdminAuth_authorized _ _ _ _ Hauth).
  unfold handler.UpdateJoke.
  destruct (strconv.ParseInt (URLParam r "id")) as [id [e|]];
    [repeat split; reflexivity|].
  destruct (handler.Decode (Body r)) as [e|req]; [repeat split; reflexivity|].
  destruct (String.eqb (handler.ReqText req) "");
    [repeat split; reflexivity|].
  run_handler. rewrite Hopen.
  destruct (repository.select_by_id id (rows (db w))) as [j|] eqn:Hsel.
  - cbv iota beta. run_handler. cbn [db noted ID Text]. rewrite Hopen.
    destruct (repository.matching id (rows (db w)) =? 0) eqn:Hm.
    { apply matching_zero in Hm. rewrite Hm in Hsel. discriminate Hsel. }
    cbv iota beta. run_handler. cbn [db set_db closed rows].
    cbn [wall tick noted].
    rewrite (select_by_id_updated _ _ _ _ _ Hsel). cbv iota beta.
    repeat split; try reflexivity.
    cbn [calls noted set_db ticked]. now rewrite <- !app_assoc.
  - cbv iota beta. simpl. repeat split; reflexivity.
Qed.

Lemma update_rows_created (id : Z) (text : string) (now : Z)
      (t : list Joke) :
  map CreatedAt (repository.update_rows id text now t) = map CreatedAt t.
Proof.
  unfold repository.update_rows. rewrite map_map. apply map_ext.
  intros j. now destruct (ID j =? id).
Qed.

(** X2.  What the repository's [UpdateJoke] does to an open table.  It
    succeeds exactly when the id is stored; its error is never
    [ErrJokeNotFound] and comes with an unchanged table; in every case
    the ids, their order, the creation times and [sqlite_sequence] are
    kept and every other row reads as before; the row of the id has the
    new text, its old creation time and the clock reading of the call. *)
Theorem UpdateJoke_frame (w : World) (joke : Joke) :
  is_open w ->
  let '(err, w1) := repository.UpdateJoke joke w in
  let t := rows (db w) in
  let t1 := rows (db w1) in
  (err = None <-> repository.select_by_id (ID joke) t <> None)
  /\ (forall e, err = Some e ->
        errors_Is e ErrJokeNotFound = false /\ t1 = t)
  /\ map ID t1 = map ID t
  /\ map CreatedAt t1 = map CreatedAt t
  /\ seq (db w1) = seq (db w)
  /\ (forall k, k <> ID joke ->
        repository.select_by_id k t1 = repository.select_by_id k t)
  /\ (forall j, repository.select_by_id (ID joke) t = Some j ->
        repository.select_by_id (ID joke) t1
        = Some (mkJoke (ID joke) (Text joke) (CreatedAt j) (wall w (tick w)))).
Proof.
  intros Hopen. unfold is_open in Hopen.
  rewrite UpdateJoke_run. cbv zeta. rewrite Hopen.
  cbn [db set_db rows seq ticked noted].
  split; [|split; [|split; [|split; [|split; [|split]]]]].
  - destruct (repository.matching (ID joke) (rows (db w)) =? 0) eqn:Hm.
    + apply matching_zero in Hm. split; [discriminate | congruence].
    + split; [|reflexivity]. intros _ Hnone.
      apply matching_zero in Hnone. congruence.
  - intros e He.
    destruct (repository.matching (ID joke) (rows (db w)) =? 0) eqn:Hm;
      [|discriminate].
    injection He as <-. apply matching_zero in Hm.
    split; [reflexivity | now apply update_rows_nothing].
  - apply update_rows_ids.
  - apply update_rows_created.
  - reflexivity.
  - intros k Hk. now apply update_rows_others.
  - intros j Hj. now apply select_by_id_updated.
Qed.

Lemma UpdateJoke_frame_witness :
  let w := snd (repository.CreateJoke (mkJoke 0 "knock knock" 0 0) world0) in
  let '(err, w1) := repository.UpdateJoke (mkJoke 1 "who is there" 0 0) w in
  let t := rows (db w) in
  let t1 := rows (db w1) in
  (err = None <-> repository.select_by_id 1 t <> None)
  /\ (forall e, err = Some e ->
        errors_Is e ErrJokeNotFound = false /\ t1 = t)
  /\ map ID t1 = map ID t
  /\ map CreatedAt t1 = map CreatedAt t
  /\ seq (db w1) = seq (db w)
  /\ (forall k, k <> 1 ->
        repository.select_by_id k t1 = repository.select_by_id k t)
  /\ (forall j, repository.select_by_id 1 t = Some j ->
        repository.select_by_id 1 t1
        = Some (mkJoke 1 "who is there" (CreatedAt j) (wall w (tick w)))).
Proof.
  exact (UpdateJoke_frame
           (snd (repository.CreateJoke (mkJoke 0 "knock knock" 0 0) world0))
           (mkJoke 1 "who is there" 0 0) eq_refl).
Defined.

Lemma UpdateJoke_statuses_witness :
  let key := [("Admin-API-Key", "secret")] in
  let w :=
    snd (api.serve "secret"
           (request "POST" "/api/admin/joke" key (dq "{'text':'knock knock'}"))
           world0) in
  let r := mkRequest "PUT" "/api/admin/joke/1" [] key
             (dq "{'text':'who is there'}") [("id", "1")] in
  let '(rw, w1) :=
    middleware.AdminAuth "secret" handler.UpdateJoke NewRecorder r w in
  code rw = StatusOK
  /\ body rw = joke_body (mkJoke 1 "who is there" (clock0 0) (clock0 2))
  /\ rows (db w1)
     = repository.update_rows 1 "who is there" (clock0 2) (rows (db w))
  /\ calls w1
     = (calls w ++ [CallGetJoke 1; CallUpdateJoke 1 "who is there";
                    CallGetJoke 1])%list.
Proof.
  refine (UpdateJoke_statuses "secret"
            (snd (api.serve "secret"
                    (request "POST" "/api/admin/joke"
                       [("Admin-API-Key", "secret")]
                       (dq "{'text':'knock knock'}"))
                    world0))
            (mkRequest "PUT" "/api/admin/joke/1" []
               [("Admin-API-Key", "secret")]
               (dq "{'text':'who is there'}") [("id", "1")]) _ eq_refl).
  split; [discriminate | reflexivity].
Defined.

(** ** What the handlers keep of the table *)

(** As [Invariant], for properties that need the texts written to be
    non-empty, which the handlers check before they write. *)
Section InvariantOfTexts.

Variable P : DB -> Prop.

Hypothesis P_insert : forall d id text created updated,
  text <> "" -> closed d = false -> repository.new_rowid d = Some id -> P d ->
  P (mkDB (rows d ++ [mkJoke id text created updated]) id false).

Hypothesis P_update : forall d id text now,
  text <> "" -> closed d = false -> P d ->
  P (mkDB (repository.update_rows id text now (rows d)) (seq d) false).

Hypothesis P_delete : forall d id,
  closed d = false -> P d ->
  P (mkDB (repository.delete_rows id (rows d)) (seq d) false).

Ltac keep :=
  simpl;
  first [ assumption
        | apply P_insert; [apply String.eqb_neq| | |]; assumption
        | apply P_update; [apply String.eqb_neq| |]; assumption
        | apply P_delete; assumption ].

Lemma leaves_keep (h : Handler) :
  In h leaves ->
  forall rw r w, P (db w) -> P (db (snd (h rw r w))).
Proof.
  simpl.
  intros [<-|[<-|[<-|[<-|[<-|[<-|[<-|[<-|[<-|[<-|[]]]]]]]]]]];
    intros rw r w HP.
  - unfold handler.ListJokes. cases; keep.
  - unfold handler.GetRandomJoke. cases; keep.
  - unfold handler.GetJoke. cases; keep.
  - unfold handler.CreateJoke. cases; keep.
  - unfold handler.UpdateJoke. cases; keep.
  - unfold handler.DeleteJoke. cases; keep.
  - keep.
  - keep.
  - keep.
  - keep.
Qed.

Lemma serve_keeps (adminApiKey : string) (r : Request) (w : World) :
  P (db w) -> P (db (snd (api.serve adminApiKey r w))).
Proof.
  intros HP. unfold api.serve.
  destruct (router_dispatches adminApiKey NewRecorder r w) as [h r' Hh|].
  - now apply leaves_keep.
  - exact HP.
Qed.

Lemma reachable_keeps (w : World) :
  P repository.NewSQLiteJokeRepository -> reachable w -> P (db w).
Proof.
  intros H0. induction 1 as [clock draws | key r w Hr IH | clock draws w Hr IH].
  - exact H0.
  - now apply serve_keeps.
  - exact IH.
Qed.

End InvariantOfTexts.

Lemma increasing_app (l : list Z) (x : Z) :
  increasing l -> (forall a, In a l -> a < x) -> increasing (l ++ [x]).
Proof.
  induction l as [|a l IH]; simpl; intros Hl Hx.
  - split; [contradiction | exact I].
  - destruct Hl as [Ha Hl]. split.
    + intros b Hb. apply in_app_or in Hb. destruct Hb as [Hb|[<-|[]]].
      * now apply Ha.
      * apply Hx. now left.
    + apply IH; [assumption|]. intros b Hb. apply Hx. now right.
Qed.

Lemma increasing_filter (f : Joke -> bool) (t : list Joke) :
  increasing (map ID t) -> increasing (map ID (filter f t)).
Proof.
  induction t as [|j t IH]; simpl; [trivial|]. intros [Hj Ht].
  destruct (f j); simpl; [|now apply IH].
  split; [|now apply IH].
  intros b Hb. apply Hj. apply in_map_iff in Hb.
  destruct Hb as (k & <- & Hk). apply filter_In in Hk.
  apply in_map. tauto.
Qed.

Lemma increasing_NoDup (l : list Z) : increasing l -> NoDup l.
Proof.
  induction l as [|a l IH]; simpl; intros H; [constructor|].
  destruct H as [Ha Hl]. constructor; [|now apply IH].
  intros Hin. specialize (Ha a Hin). lia.
Qed.

Lemma reachable_wf (w : World) : reachable w -> db_wf (db w).
Proof.
  apply reachable_keeps; unfold db_wf; simpl.
  - intros d id text created updated Htext _ Hid (Hopen & Hseq & Hinc & Hrows).
    destruct (new_rowid_fresh _ _ Hid) as (Hfresh & Hlo & Hhi).
    split; [reflexivity|]. split; [lia|]. split.
    + rewrite map_app. apply increasing_app; [assumption|].
      intros a Ha. apply in_map_iff in Ha. destruct Ha as (j & <- & Hj).
      now apply Hfresh.
    + intros j Hj. apply in_app_or in Hj. destruct Hj as [Hj|[<-|[]]].
      * destruct (Hrows j Hj) as [Hb Ht]. split; [lia | assumption].
      * simpl. split; [lia | assumption].
  - intros d id text now Htext _ (Hopen & Hseq & Hinc & Hrows).
    split; [reflexivity|]. split; [assumption|]. split.
    + now rewrite update_rows_ids.
    + intros j Hj. unfold repository.update_rows in Hj.
      apply in_map_iff in Hj. destruct Hj as (k & Hk & Hin).
      destruct (Hrows k Hin) as [Hb Ht].
      destruct (ID k =? id); subst j; simpl; tauto.
  - intros d id _ (Hopen & Hseq & Hinc & Hrows).
    split; [reflexivity|]. split; [assumption|]. split.
    + now apply increasing_filter.
    + intros j Hj. apply filter_In in Hj. now apply Hrows.
  - split; [reflexivity|]. split; [unfold repository.MAX_ROWID; lia|].
    split; [exact I|]. intros j [].
Qed.

Lemma select_by_id_In (t : list Joke) (j : Joke) :
  increasing (map ID t) -> In j t -> repository.select_by_id (ID j) t = Some j.
Proof.
  unfold repository.select_by_id.
  induction t as [|k t IH]; simpl; [contradiction|].
  intros [Hk Ht] [<-|Hin].
  - now rewrite Z.eqb_refl.
  - destruct (ID k =? ID j) eqn:E; [|now apply IH].
    apply Z.eqb_eq in E. specialize (Hk (ID j) (in_map ID _ _ Hin)). lia.
Qed.

(** X3.  In every state the service can reach (a new database file, any
    requests through the router, restarts) the handle is open, the ids of
    the table are pairwise distinct and in increasing order, and every
    row has an id from 1 up to [sqlite_sequence], which fits an [int64],
    a text that is not empty, and is the row its id selects. *)
Theorem reachable_table (w : World) :
  reachable w ->
  is_open w
  /\ NoDup (map ID (rows (db w)))
  /\ increasing (map ID (rows (db w)))
  /\ seq (db w) <= repository.MAX_ROWID
  /\ forall j, In j (rows (db w)) ->
       1 <= ID j <= seq (db w)
       /\ fits_int64 (ID j) = true
       /\ Text j <> ""
       /\ repository.select_by_id (ID j) (rows (db w)) = Some j.
Proof.
  intros Hr. destruct (reachable_wf w Hr) as (Hopen & Hseq & Hinc & Hrows).
  split; [exact Hopen|]. split; [now apply increasing_NoDup|].
  split; [exact Hinc|]. split; [lia|].
  intros j Hin. destruct (Hrows j Hin) as [Hid Htext].
  split; [exact Hid|]. split; [|split; [exact Htext|]].
  - unfold fits_int64, repository.MAX_ROWID in *.
    apply andb_true_iff. split; [apply Z.leb_le | apply Z.ltb_lt]; lia.
  - now apply select_by_id_In.
Qed.

Lemma reachable_table_witness :
  let w :=
    snd (api.serve "secret"
           (request "POST" "/api/admin/joke" [("Admin-API-Key", "secret")]
              (dq "{'text':'knock knock'}"))
           world0) in
  is_open w
  /\ NoDup (map ID (rows (db w)))
  /\ increasing (map ID (rows (db w)))
  /\ seq (db w) <= repository.MAX_ROWID
  /\ forall j, In j (rows (db w)) ->
       1 <= ID j <= seq (db w)
       /\ fits_int64 (ID j) = true
       /\ Text j <> ""
       /\ repository.select_by_id (ID j) (rows (db w)) = Some j.
Proof. apply reachable_table. apply reach_serve, reach_start. Defined.

(** ** Every stored joke has its address *)

(** X4.  In every reachable state each row of the table is served at
    [/api/joke/<id>], with the id written by [strconv.FormatInt]: the
    router takes the path to [GetJoke], the id parses back, and the
    answer is 200 with that row as JSON; the table is left as it was. *)
Theorem stored_joke_is_served (adminApiKey : string) (w : World) (j : Joke) :
  reachable w -> In j (rows (db w)) ->
  let '(rw, w1) :=
    api.serve adminApiKey
      (request "GET" ("/api/joke/" ++ strconv.FormatInt (ID j)) [] "") w in
  code rw = StatusOK /\ body rw = joke_body j
  /\ assoc_get "Content-Type" (header rw) = "application/json"
  /\ db w1 = db w.
Proof.
  intros Hr Hin.
  destruct (reachable_wf w Hr) as (Hopen & Hseq & Hinc & Hrows).
  destruct (Hrows j Hin) as [Hid _].
  rewrite joke_path_routed. unfold handler.GetJoke, URLParam.
  cbn [assoc_get URLParams String.eqb Ascii.eqb Bool.eqb].
  rewrite ParseInt_FormatInt.
  2:{ unfold fits_int64, repository.MAX_ROWID in *. apply andb_true_iff.
      split; [apply Z.leb_le | apply Z.ltb_lt]; lia. }
  run_handler. rewrite Hopen, (select_by_id_In _ _ Hinc Hin).
  repeat split.
Qed.

Lemma stored_joke_is_served_witness :
  let w :=
    snd (api.serve "secret"
           (request "POST" "/api/admin/joke" [("Admin-API-Key", "secret")]
              (dq "{'text':'knock knock'}"))
           world0) in
  let j := mkJoke 1 "knock knock" (clock0 0) (clock0 1) in
  let '(rw, w1) :=
    api.serve "" (request "GET" ("/api/joke/" ++ strconv.FormatInt (ID j))
                    [] "") w in
  code rw = StatusOK /\ body rw = joke_body j
  /\ assoc_get "Content-Type" (header rw) = "application/json"
  /\ db w1 = db w.
Proof.
  refine (stored_joke_is_served ""
            (snd (api.serve "secret"
                    (request "POST" "/api/admin/joke"
                       [("Admin-API-Key", "secret")]
                       (dq "{'text':'knock knock'}"))
                    world0))
            (mkJoke 1 "knock knock" (clock0 0) (clock0 1)) _ _).
  - apply reach_serve, reach_start.
  - vm_compute. now left.
Defined.

(** ** The statuses of the joke handlers *)

(** X5.  With the SQLite repository each of the six joke handlers
    answers 200, 201, 204, 400 or 500 and nothing else: the 404 that
    [GetJoke], [GetRandomJoke], [UpdateJoke] and [DeleteJoke] provide for
    is never written, because the repository never returns the errors
    they test for.  On a closed handle the answer is 400 or 500 and the
    table is not changed. *)
Theorem handler_statuses (h : Handler) (r : Request) (w : World) :
  In h jokeHandlers ->
  let '(rw, w1) := h NewRecorder r w in
  In (code rw) [StatusOK; StatusCreated; StatusNoContent; StatusBadRequest;
                StatusInternalServerError]
  /\ (closed (db w) = true ->
      In (code rw) [StatusBadRequest; StatusInternalServerError]
      /\ db w1 = db w).
Proof.
  simpl. intros [<-|[<-|[<-|[<-|[<-|[<-|[]]]]]]].
  - unfold handler.ListJokes.
    cases; simpl; (split; [tauto|]); intros C; try congruence; tauto.
  - unfold handler.GetRandomJoke.
    cases; simpl; (split; [tauto|]); intros C; try congruence; tauto.
  - unfold handler.GetJoke.
    cases; simpl; (split; [tauto|]); intros C; try congruence; tauto.
  - unfold handler.CreateJoke.
    cases; simpl; (split; [tauto|]); intros C; try congruence; tauto.
  - unfold handler.UpdateJoke.
    cases; simpl; (split; [tauto|]); intros C; try congruence; tauto.
  - unfold handler.DeleteJoke.
    cases; simpl; (split; [tauto|]); intros C; try congruence; tauto.
Qed.

Lemma handler_statuses_witness :
  let r := mkRequest "GET" "/api/joke/7" [] [] "" [("id", "7")] in
  let '(rw, w1) := handler.GetJoke NewRecorder r world0 in
  In (code rw) [StatusOK; StatusCreated; StatusNoContent; StatusBadRequest;
                StatusInternalServerError]
  /\ (closed (db world0) = true ->
      In (code rw) [StatusBadRequest; StatusInternalServerError]
      /\ db w1 = db world0).
Proof.
  apply (handler_statuses handler.GetJoke
           (mkRequest "GET" "/api/joke/7" [] [] "" [("id", "7")]) world0).
  simpl. tauto.
Defined.

(** X6.  What the handlers write.  Every response of a joke handler is
    either the 204 of a deletion, with no body and no header, or a body
    of exactly one JSON document announced as [application/json]. *)
Theorem handler_responses_are_json (h : Handler) (r : Request) (w : World) :
  In h jokeHandlers ->
  let rw := fst (h NewRecorder r w) in
  (code rw = StatusNoContent /\ body rw = [] /\ header rw = [])
  \/ (assoc_get "Content-Type" (header rw) = "application/json"
      /\ exists v, body rw = [JSONBytes v]).
Proof.
  simpl. intros [<-|[<-|[<-|[<-|[<-|[<-|[]]]]]]].
  - unfold handler.ListJokes.
    cases; simpl; right; (split; [reflexivity | eexists; reflexivity]).
  - unfold handler.GetRandomJoke.
    cases; simpl; right; (split; [reflexivity | eexists; reflexivity]).
  - unfold handler.GetJoke.
    cases; simpl; right; (split; [reflexivity | eexists; reflexivity]).
  - unfold handler.CreateJoke.
    cases; simpl; right; (split; [reflexivity | eexists; reflexivity]).
  - unfold handler.UpdateJoke.
    cases; simpl; right; (split; [reflexivity | eexists; reflexivity]).
  - unfold handler.DeleteJoke. cases; simpl;
      first [ left; repeat split; reflexivity
            | right; (split; [reflexivity | eexists; reflexivity]) ].
Qed.

Lemma handler_responses_are_json_witness :
  let r := mkRequest "POST" "/api/admin/joke" [] []
             (dq "{'text':'knock knock'}") [] in
  let rw := fst (handler.CreateJoke NewRecorder r world0) in
  (code rw = StatusNoContent /\ body rw = [] /\ header rw = [])
  \/ (assoc_get "Content-Type" (header rw) = "application/json"
      /\ exists v, body rw = [JSONBytes v]).
Proof.
  apply (handler_responses_are_json handler.CreateJoke
           (mkRequest "POST" "/api/admin/joke" [] []
              (dq "{'text':'knock knock'}") []) world0).
  simpl. tauto.
Defined.

(** ** A closed handle *)

(** X7.  [Close] returns no error and keeps the rows.  From then on,
    whatever requests are served, the table stays as [Close] left it and
    every other method of the repository fails with an error that wraps
    the closed-handle error of [database/sql]; a second [Close] returns
    no error again. *)
Theorem Close_is_final (w w' : World) :
  let '(err, w1) := repository.Close w in
  later w1 w' ->
  err = None
  /\ calls w1 = (calls w ++ [CallClose])%list
  /\ rows (db w1) = rows (db w) /\ seq (db w1) = seq (db w)
  /\ db w' = db w1
  /\ (forall id, exists e,
        fst (repository.GetJoke id w') = inl e
        /\ errors_Is e sql_errDBClosed = true)
  /\ (exists e,
        fst (repository.GetRandomJoke w') = inl e
        /\ errors_Is e sql_errDBClosed = true)
  /\ (forall limit offset, exists e,
        fst (repository.ListJokes limit offset w') = (nil_slice, Some e)
        /\ errors_Is e sql_errDBClosed = true)
  /\ (exists e,
        fst (repository.CountJokes w') = inl e
        /\ errors_Is e sql_errDBClosed = true)
  /\ (forall joke, exists e,
        fst (repository.CreateJoke joke w') = inl e
        /\ errors_Is e sql_errDBClosed = true)
  /\ (forall joke, exists e,
        fst (repository.UpdateJoke joke w') = Some e
        /\ errors_Is e sql_errDBClosed = true)
  /\ (forall id, exists e,
        fst (repository.DeleteJoke id w') = Some e
        /\ errors_Is e sql_errDBClosed = true)
  /\ fst (repository.Close w') = None.
Proof.
  simpl. intros Hl.
  set (d1 := mkDB (rows (db w)) (seq (db w)) true).
  assert (Hd : db w' = d1).
  { refine (later_invariant (fun d => d = d1) _ _ _ _ _ Hl eq_refl).
    - intros d id text c u Hopen _ ->. discriminate Hopen.
    - intros d id text now Hopen ->. discriminate Hopen.
    - intros d id Hopen ->. discriminate Hopen. }
  assert (Hc : closed (db w') = true) by now rewrite Hd.
  repeat split; try assumption.
  - intros id. rewrite GetJoke_run, Hc. eexists. split; reflexivity.
  - rewrite GetRandomJoke_run, Hc. eexists. split; reflexivity.
  - intros limit offset. rewrite ListJokes_run, Hc.
    eexists. split; reflexivity.
  - rewrite CountJokes_run, Hc. eexists. split; reflexivity.
  - intros joke. rewrite CreateJoke_run. cbv zeta. rewrite Hc.
    eexists. split; reflexivity.
  - intros joke. simpl.
    unfold repository.SQLite.UpdateJoke, repository.ExecWrite, bind, record,
      time_Now, get_db, ret.
    simpl. rewrite Hc. eexists. split; reflexivity.
  - intros id. simpl.
    unfold repository.SQLite.DeleteJoke, repository.ExecWrite, bind, record,
      get_db, ret.
    simpl. rewrite Hc. eexists. split; reflexivity.
Qed.

Lemma Close_is_final_witness :
  let w1 := snd (repository.Close world0) in
  let w' :=
    snd (api.serve "secret"
           (request "POST" "/api/admin/joke" [("Admin-API-Key", "secret")]
              (dq "{'text':'knock knock'}"))
           w1) in
  db w' = db w1
  /\ (exists e, fst (repository.CountJokes w') = inl e
                /\ errors_Is e sql_errDBClosed = true).
Proof.
  pose proof
    (Close_is_final world0
       (snd (api.serve "secret"
               (request "POST" "/api/admin/joke"
                  [("Admin-API-Key", "secret")]
                  (dq "{'text':'knock knock'}"))
               (snd (repository.Close world0))))) as H.
  cbv beta iota zeta delta [repository.Close repository.SQLiteJokeRepository
    repository.SQLite.Close bind record get_db put_db ret set_db] in H.
  specialize (H (later_serve _ _ _ _ (later_now _))).
  destruct H as (_ & _ & _ & _ & Hdb & _ & _ & _ & Hcount & _).
  split; [exact Hdb | exact Hcount].
Defined.

(** ** Which requests change the table *)

Lemma db_eta (d : DB) : closed d = false -> mkDB (rows d) (seq d) false = d.
Proof. destruct d; simpl. now intros ->. Qed.

Lemma reads_keep (h : Handler) (rw : ResponseWriter) (r : Request)
      (w : World) :
  In h [handler.ListJokes; handler.GetRandomJoke; handler.GetJoke;
        api.NotFound; api.methodNotAllowed; api.root; api.healthz] ->
  db (snd (h rw r w)) = db w.
Proof.
  simpl. intros [<-|[<-|[<-|[<-|[<-|[<-|[<-|[]]]]]]]]; try reflexivity.
  - unfold handler.ListJokes. cases; reflexivity.
  - unfold handler.GetRandomJoke. cases; reflexivity.
  - unfold handler.GetJoke. cases; reflexivity.
Qed.

(** X8.  Only an authorized POST, PUT or DELETE can change the table:
    any request that does not carry the configured, non-empty admin key,
    and any request of another method, leaves the table, its
    [sqlite_sequence] and the handle exactly as they were, whatever its
    path, query and body. *)
Theorem writes_need_key_and_method (adminApiKey : string) (r : Request)
        (w : World) :
  ~ (authorized adminApiKey r /\ In (Method r) ["POST"; "PUT"; "DELETE"]) ->
  db (snd (api.serve adminApiKey r w)) = db w.
Proof.
  intros H.
  assert (W : db (snd (api.serve adminApiKey r w)) = db w
              \/ (authorized adminApiKey r
                  /\ In (Method r) ["POST"; "PUT"; "DELETE"])).
  {
    unfold api.serve, api.router.
    assert (Hread : forall m h,
              In h [handler.ListJokes; handler.GetRandomJoke;
                    handler.GetJoke; api.NotFound; api.methodNotAllowed;
                    api.root; api.healthz] ->
              db (snd (api.on m h NewRecorder r w)) = db w).
    { intros m h Hh. unfold api.on. destruct (String.eqb (Method r) m);
        [now apply reads_keep | reflexivity]. }
    assert (Hid : forall m id,
              db (snd (api.on m (api.with_id id handler.GetJoke)
                         NewRecorder r w)) = db w).
    { intros m id. unfold api.on, api.with_id.
      destruct (String.eqb (Method r) m); [|reflexivity].
      apply (reads_keep handler.GetJoke). simpl. tauto. }
    assert (Hapi : forall rest,
              db (snd (api.apiRouter adminApiKey rest NewRecorder r w)) = db w
              \/ (authorized adminApiKey r
                  /\ In (Method r) ["POST"; "PUT"; "DELETE"])).
    { intros rest. unfold api.apiRouter.
      destruct rest as [|s sub]; [now left|].
      destruct (String.eqb s "admin").
      - unfold api.adminRouter, middleware.AdminAuth.
        destruct (String.eqb _ "") eqn:E1; [now left|].
        destruct (String.eqb _ adminApiKey) eqn:E2; [|now left].
        apply String.eqb_eq in E2. apply String.eqb_neq in E1.
        assert (Ha : authorized adminApiKey r).
        { split; [|assumption]. now rewrite <- E2. }
        simpl negb. cbv iota.
        unfold api.adminRoutes.
        destruct sub as [|seg [|id [|x sub']]]; try now left.
        + destruct (String.eqb seg "joke"); [|now left].
          unfold api.on. destruct (String.eqb (Method r) "POST") eqn:M;
            [|now left].
          apply String.eqb_eq in M. right. split; [assumption|].
          rewrite M. simpl. tauto.
        + destruct (String.eqb seg "joke" && negb (String.eqb id ""));
            [|now left].
          destruct (String.eqb (Method r) "PUT") eqn:M.
          { apply String.eqb_eq in M. right. split; [assumption|].
            rewrite M. simpl. tauto. }
          destruct (String.eqb (Method r) "DELETE") eqn:M'; [|now left].
          apply String.eqb_eq in M'. right. split; [assumption|].
          rewrite M'. simpl. tauto.
      - destruct (String.eqb s "joke"); [|now left]. left.
        unfold api.jokeRouter.
        destruct sub as [|seg [|x sub']]; try reflexivity.
        + apply Hread. simpl. tauto.
        + destruct (String.eqb seg ""); [apply Hread; simpl; tauto|].
          destruct (String.eqb seg "random"); [apply Hread; simpl; tauto|].
          apply Hid. }
    destruct (api.split (Path r)) as [|e [|seg rest]]; try now left.
    destruct rest as [|x rest'].
    - destruct (String.eqb e "" && String.eqb seg "");
        [left; apply Hread; simpl; tauto|].
      destruct (String.eqb e "" && String.eqb seg "healthz");
        [left; apply Hread; simpl; tauto | now left].
    - destruct (String.eqb e "" && String.eqb seg "api");
        [apply Hapi | now left].
  }
  destruct W as [E|E]; [exact E | contradiction].
Qed.

Lemma writes_need_key_and_method_witness :
  let w :=
    snd (api.serve "secret"
           (request "POST" "/api/admin/joke" [("Admin-API-Key", "secret")]
              (dq "{'text':'knock knock'}"))
           world0) in
  db (snd (api.serve "secret"
             (request "DELETE" "/api/admin/joke/1"
                [("Admin-API-Key", "guess")] "") w))
  = db w.
Proof.
  apply writes_need_key_and_method.
  intros [[_ H] _]. vm_compute in H. discriminate H.
Defined.

Ltac not_4xx :=
  let H1 := fresh in
  let H2 := fresh in
  intros [H1 H2]; exfalso; revert H1 H2; vm_compute; intros H1 H2;
  first [discriminate H2 | now apply H1].

Lemma client_errors_keep (h : Handler) (r : Request) (w : World) :
  In h leaves ->
  400 <= code (fst (h NewRecorder r w)) < 500 ->
  snd (h NewRecorder r w) = w.
Proof.
  simpl.
  intros [<-|[<-|[<-|[<-|[<-|[<-|[<-|[<-|[<-|[<-|[]]]]]]]]]]];
    try (intros _; reflexivity).
  - unfold handler.ListJokes. cases; simpl; try (intros _; reflexivity);
      not_4xx.
  - unfold handler.GetRandomJoke. cases; simpl; try (intros _; reflexivity);
      not_4xx.
  - unfold handler.GetJoke. cases; simpl; try (intros _; reflexivity);
      not_4xx.
  - unfold handler.CreateJoke. cases; simpl; try (intros _; reflexivity);
      not_4xx.
  - unfold handler.UpdateJoke. cases; simpl; try (intros _; reflexivity);
      not_4xx.
  - unfold handler.DeleteJoke. cases; simpl; try (intros _; reflexivity);
      not_4xx.
Qed.

(** X9.  A request that is answered with a 4xx status has touched
    nothing: no repository method was called, the clock and the random
    source were not read, the table is as it was.  All validation (the
    gate's key, the route, the id, the body, the text) comes before the
    first repository call. *)
Theorem client_errors_touch_nothing (adminApiKey : string) (r : Request)
        (w : World) :
  let '(rw, w1) := api.serve adminApiKey r w in
  400 <= code rw < 500 -> w1 = w.
Proof.
  unfold api.serve.
  destruct (router_dispatches adminApiKey NewRecorder r w) as [h r' Hh|];
    [|reflexivity].
  pose proof (client_errors_keep h r' w Hh) as K.
  now destruct (h NewRecorder r' w) as [rw w1].
Qed.

Lemma client_errors_touch_nothing_witness :
  snd (api.serve "secret"
         (request "PUT" "/api/admin/joke/1" [("Admin-API-Key", "secret")]
            (dq "{'text':''}"))
         world0)
  = world0.
Proof.
  pose proof
    (client_errors_touch_nothing "secret"
       (request "PUT" "/api/admin/joke/1" [("Admin-API-Key", "secret")]
          (dq "{'text':''}"))
       world0) as H.
  destruct (api.serve "secret"
              (request "PUT" "/api/admin/joke/1"
                 [("Admin-API-Key", "secret")] (dq "{'text':''}"))
              world0) as [rw w1] eqn:E.
  simpl. apply H. change rw with (fst (rw, w1)). rewrite <- E.
  vm_compute. split; [discriminate | reflexivity].
Defined.

(** ** Pages *)

Lemma firstn_plus {A : Type} (n m : nat) (l : list A) :
  firstn (n + m) l = (firstn n l ++ firstn m (skipn n l))%list.
Proof.
  revert l. induction n as [|n IH]; intros l; [reflexivity|].
  destruct l as [|a l]; simpl.
  - now rewrite firstn_nil.
  - now rewrite IH.
Qed.

Lemma skipn_plus {A : Type} (n m : nat) (l : list A) :
  skipn (n + m) l = skipn m (skipn n l).
Proof.
  revert l. induction n as [|n IH]; intros l; [reflexivity|].
  destruct l as [|a l]; simpl; [now rewrite skipn_nil | apply IH].
Qed.

Lemma select_page_tiles (limit limit' offset : Z) (t : list Joke) :
  0 <= limit -> 0 <= limit' -> 0 <= offset ->
  repository.select_page (limit + limit') offset t
  = (repository.select_page limit offset t
     ++ repository.select_page limit' (offset + limit) t)%list.
Proof.
  intros Hl Hl' Ho. unfold repository.select_page.
  destruct (limit + limit' <? 0) eqn:E1; [apply Z.ltb_lt in E1; lia|].
  destruct (limit <? 0) eqn:E2; [apply Z.ltb_lt in E2; lia|].
  destruct (limit' <? 0) eqn:E3; [apply Z.ltb_lt in E3; lia|].
  rewrite !Z2Nat.inj_add by assumption.
  now rewrite firstn_plus, skipn_plus.
Qed.

Lemma select_page_length (limit offset : Z) (t : list Joke) :
  0 <= limit -> 0 <= offset ->
  Z.of_nat (List.length (repository.select_page limit offset t))
  = Z.min limit (Z.max 0 (Z.of_nat (List.length t) - offset)).
Proof.
  intros Hl Ho. unfold repository.select_page.
  destruct (limit <? 0) eqn:E; [apply Z.ltb_lt in E; lia|].
  rewrite length_firstn, length_skipn. lia.
Qed.

Lemma select_page_In (limit offset : Z) (t : list Joke) (j : Joke) :
  In j (repository.select_page limit offset t) -> In j t.
Proof.
  unfold repository.select_page. intros H.
  assert (Hskip : forall n, In j (skipn n t) -> In j t).
  { intros n Hn. rewrite <- (firstn_skipn n t). apply in_or_app. now right. }
  destruct (limit <? 0); [now apply Hskip in H|].
  apply (Hskip (Z.to_nat offset)).
  rewrite <- (firstn_skipn (Z.to_nat limit) (skipn _ t)).
  apply in_or_app. now left.
Qed.

(** X10.  The pages of the repository's [ListJokes] on an open table, for
    a limit and an offset that are not negative: a page holds
    min(limit, max(0, rows - offset)) jokes, all of them rows of the
    table; the page that starts where it ends continues it, the two
    together being the one page of the summed limits; and listing does
    not change the table. *)
Theorem ListJokes_pages (w : World) (limit limit' offset : Z) :
  is_open w -> 0 <= limit -> 0 <= limit' -> 0 <= offset ->
  let page l o := fst (fst (repository.ListJokes l o w)) in
  exists p q,
    page limit offset = Slice p
    /\ page limit' (offset + limit) = Slice q
    /\ page (limit + limit') offset = Slice (p ++ q)
    /\ Z.of_nat (List.length p)
       = Z.min limit (Z.max 0 (Z.of_nat (List.length (rows (db w))) - offset))
    /\ (forall j, In j p -> In j (rows (db w)))
    /\ db (snd (repository.ListJokes limit offset w)) = db w.
Proof.
  intros Hopen Hl Hl' Ho. unfold is_open in Hopen. cbv zeta.
  rewrite !ListJokes_run, Hopen. cbn [fst snd].
  exists (repository.select_page limit offset (rows (db w))),
         (repository.select_page limit' (offset + limit) (rows (db w))).
  split; [reflexivity|]. split; [reflexivity|].
  split; [now rewrite select_page_tiles|].
  split; [now apply select_page_length|].
  split; [intros j; apply select_page_In | reflexivity].
Qed.

Lemma ListJokes_pages_witness :
  let w :=
    snd (api.serve "secret"
           (request "POST" "/api/admin/joke" [("Admin-API-Key", "secret")]
              (dq "{'text':'knock knock'}"))
           world0) in
  let page l o := fst (fst (repository.ListJokes l o w)) in
  exists p q,
    page 1 0 = Slice p
    /\ page 2 (0 + 1) = Slice q
    /\ page (1 + 2) 0 = Slice (p ++ q)
    /\ Z.of_nat (List.length p)
       = Z.min 1 (Z.max 0 (Z.of_nat (List.length (rows (db w))) - 0))
    /\ (forall j, In j p -> In j (rows (db w)))
    /\ db (snd (repository.ListJokes 1 0 w)) = db w.
Proof.
  apply (ListJokes_pages
           (snd (api.serve "secret"
                 (request "POST" "/api/admin/joke" [("Admin-API-Key", "secret")]
                    (dq "{'text':'knock knock'}"))
                 world0))
           1 2 0); [reflexivity | lia | lia | lia].
Defined.

(** ** Any joke can be drawn *)

Lemma select_random_In (k : nat) (t : list Joke) :
  t <> [] -> exists j, repository.select_random k t = Some j /\ In j t.
Proof.
  intros Ht. unfold repository.select_random.
  destruct (nth_error t (k mod List.length t)) as [j|] eqn:E.
  - exists j. split; [reflexivity|]. eapply nth_error_In; eassumption.
  - apply nth_error_None in E.
    assert (List.length t <> 0)%nat by (destruct t; simpl; congruence).
    pose proof (Nat.mod_upper_bound k (List.length t)). lia.
Qed.

Lemma select_random_any (t : list Joke) (j : Joke) :
  In j t -> exists k, repository.select_random k t = Some j.
Proof.
  intros Hin. apply In_nth_error in Hin. destruct Hin as [n Hn].
  exists n. unfold repository.select_random.
  assert (n < List.length t)%nat by (apply nth_error_Some; congruence).
  now rewrite Nat.mod_small.
Qed.

(** X11.  On an open table that is not empty [GetRandomJoke] answers 200
    with one of the stored rows, reads the random source once and leaves
    the table as it was; and no row is out of reach: for each one there
    is a draw that serves it. *)
Theorem GetRandomJoke_draws (w : World) (r : Request) :
  is_open w -> rows (db w) <> [] ->
  (let '(rw, w1) := handler.GetRandomJoke NewRecorder r w in
   exists j, In j (rows (db w))
     /\ code rw = StatusOK /\ body rw = joke_body j
     /\ db w1 = db w /\ rolls w1 = S (rolls w)
     /\ calls w1 = (calls w ++ [CallGetRandomJoke])%list)
  /\ forall j, In j (rows (db w)) ->
       exists draws,
         body (fst (handler.GetRandomJoke NewRecorder r
                      (mkWorld (db w) (wall w) (tick w) draws (rolls w)
                               (calls w) (logs w))))
         = joke_body j.
Proof.
  intros Hopen Hne. unfold is_open in Hopen. split.
  - unfold handler.GetRandomJoke. run_handler. rewrite Hopen.
    destruct (select_random_In (dice w (rolls w)) _ Hne) as (j & Hj & Hin).
    rewrite Hj. exists j. repeat split; assumption.
  - intros j Hin. destruct (select_random_any _ _ Hin) as [k Hk].
    exists (fun _ => k).
    unfold handler.GetRandomJoke. run_handler. cbn [db dice rolls].
    now rewrite Hopen, Hk.
Qed.

Lemma GetRandomJoke_draws_witness :
  let w :=
    snd (api.serve "secret"
           (request "POST" "/api/admin/joke" [("Admin-API-Key", "secret")]
              (dq "{'text':'knock knock'}"))
           world0) in
  let r := request "GET" "/api/joke/random" [] "" in
  (let '(rw, w1) := handler.GetRandomJoke NewRecorder r w in
   exists j, In j (rows (db w))
     /\ code rw = StatusOK /\ body rw = joke_body j
     /\ db w1 = db w /\ rolls w1 = S (rolls w)
     /\ calls w1 = (calls w ++ [CallGetRandomJoke])%list)
  /\ forall j, In j (rows (db w)) ->
       exists draws,
         body (fst (handler.GetRandomJoke NewRecorder r
                      (mkWorld (db w) (wall w) (tick w) draws (rolls w)
                               (calls w) (logs w))))
         = joke_body j.
Proof.
  apply (GetRandomJoke_draws
           (snd (api.serve "secret"
                 (request "POST" "/api/admin/joke" [("Admin-API-Key", "secret")]
                    (dq "{'text':'knock knock'}"))
                 world0))
           (request "GET" "/api/joke/random" [] ""));
    [reflexivity | vm_compute; discriminate].
Defined.

(** ** Keys are handed out in increasing order *)

(** X12.  Keys are never handed out twice.  When [CreateJoke] has
    returned an id, every id a later [CreateJoke] returns is larger,
    whatever requests, deletions included, were served in between; it is
    also larger than every id in the table at that time.
    [sqlite_sequence] is the last id handed out. *)
Theorem created_ids_increase (w w1 w' w1' : World) (joke joke' : Joke)
        (id id' : Z) :
  repository.CreateJoke joke w = (inr id, w1) ->
  later w1 w' ->
  repository.CreateJoke joke' w' = (inr id', w1') ->
  id < id'
  /\ (forall j, In j (rows (db w')) -> ID j < id')
  /\ seq (db w1) = id /\ seq (db w1') = id'.
Proof.
  rewrite !CreateJoke_run. cbv zeta.
  destruct (closed (db w)) eqn:Hopen; [discriminate|].
  destruct (repository.new_rowid (db w)) as [i|] eqn:Hi; [|discriminate].
  intros [= -> <-] Hl.
  destruct (closed (db w')) eqn:Hopen'; [discriminate|].
  destruct (repository.new_rowid (db w')) as [i'|] eqn:Hi'; [|discriminate].
  intros [= -> <-]. cbn [db set_db seq].
  destruct (new_rowid_fresh _ _ Hi') as (Hfresh & Hlo & _).
  assert (Hseq : id <= seq (db w')).
  { refine (later_invariant (fun d => id <= seq d) _ _ _ _ _ Hl _); simpl.
    - intros d k text c u _ Hk Hd.
      destruct (new_rowid_fresh _ _ Hk) as (_ & Hlo' & _). lia.
    - intros d k text now _ Hd. exact Hd.
    - intros d k _ Hd. exact Hd.
    - lia. }
  repeat split; try assumption; lia.
Qed.

Lemma created_ids_increase_witness :
  let joke := mkJoke 0 "knock knock" 0 0 in
  let w1 := snd (repository.CreateJoke joke world0) in
  let w' :=
    snd (api.serve "secret"
           (request "DELETE" "/api/admin/joke/1"
              [("Admin-API-Key", "secret")] "") w1) in
  let w1' := snd (repository.CreateJoke joke w') in
  rows (db w') = []
  /\ 1 < 2
  /\ (forall j, In j (rows (db w')) -> ID j < 2)
  /\ seq (db w1) = 1 /\ seq (db w1') = 2.
Proof.
  split; [reflexivity|].
  set (joke := mkJoke 0 "knock knock" 0 0).
  set (w1 := snd (repository.CreateJoke joke world0)).
  set (r := request "DELETE" "/api/admin/joke/1"
              [("Admin-API-Key", "secret")] "").
  exact (created_ids_increase world0 w1
           (snd (api.serve "secret" r w1))
           (snd (repository.CreateJoke joke (snd (api.serve "secret" r w1))))
           joke joke 1 2 eq_refl
           (later_serve w1 "secret" r w1 (later_now w1)) eq_refl).
Defined.

(** ** Which ids are accepted *)

(** X13.  Which ids are accepted.  [GetJoke], [UpdateJoke] and
    [DeleteJoke] answer 400 [Invalid joke ID], before anything else and
    without touching the world, exactly when the [id] segment is not a
    decimal integer literal (an optional sign and digits, no more) that
    fits an [int64]; for such a literal they go on with its value. *)
Theorem invalid_id_is_400 (h : Handler) (r : Request) (w : World) :
  In h [handler.GetJoke; handler.UpdateJoke; handler.DeleteJoke] ->
  let '(rw, w1) := h NewRecorder r w in
  match as_int64 (URLParam r "id") with
  | None =>
      code rw = StatusBadRequest /\ body rw = error_body "Invalid joke ID"
      /\ w1 = w
  | Some id =>
      body rw <> error_body "Invalid joke ID"
      /\ strconv.ParseInt (URLParam r "id") = (id, None)
  end.
Proof.
  intros Hh. pose proof (ParseInt_spec (URLParam r "id")) as P.
  destruct (as_int64 (URLParam r "id")) as [id|].
  - simpl in Hh. destruct Hh as [<-|[<-|[<-|[]]]].
    + unfold handler.GetJoke. rewrite P.
      cases; simpl; (split; [discriminate | reflexivity]).
    + unfold handler.UpdateJoke. rewrite P.
      cases; simpl; (split; [discriminate | reflexivity]).
    + unfold handler.DeleteJoke. rewrite P.
      cases; simpl; (split; [discriminate | reflexivity]).
  - destruct P as (v & e & P).
    simpl in Hh. destruct Hh as [<-|[<-|[<-|[]]]].
    + unfold handler.GetJoke. rewrite P. repeat split.
    + unfold handler.UpdateJoke. rewrite P. repeat split.
    + unfold handler.DeleteJoke. rewrite P. repeat split.
Qed.

Lemma invalid_id_is_400_witness :
  let r := mkRequest "GET" "/api/joke/1.5" [] [] "" [("id", "1.5")] in
  let '(rw, w1) := handler.GetJoke NewRecorder r world0 in
  match as_int64 (URLParam r "id") with
  | None =>
      code rw = StatusBadRequest /\ body rw = error_body "Invalid joke ID"
      /\ w1 = world0
  | Some id =>
      body rw <> error_body "Invalid joke ID"
      /\ strconv.ParseInt (URLParam r "id") = (id, None)
  end.
Proof.
  apply (invalid_id_is_400 handler.GetJoke
           (mkRequest "GET" "/api/joke/1.5" [] [] "" [("id", "1.5")])
           world0).
  simpl. tauto.
Defined.

(** ** Bodies that are read as they were written *)

Lemma plain_cons (c : ascii) (s : string) :
  plain (String c s) = true ->
  (byte_val c =? 34) = false /\ (byte_val c <? 32) = false
  /\ (byte_val c =? 92) = false /\ (byte_val c <? 128) = true
  /\ plain s = true.
Proof.
  cbn [plain]. cbv zeta. intros H.
  apply andb_true_iff in H. destruct H as [H Hs].
  apply andb_true_iff in H. destruct H as [H H92].
  apply andb_true_iff in H. destruct H as [H H34].
  apply andb_true_iff in H. destruct H as [H32 H128].
  apply negb_true_iff in H92, H34. apply Z.leb_le in H32.
  repeat split; try assumption. apply Z.ltb_ge. assumption.
Qed.

Lemma scan_string_plain (s rest : string) :
  plain s = true ->
  json.scan_string (s ++ String (byte_of 34) rest) = Some (s, rest).
Proof.
  induction s as [|c s IH]; intros Hp.
  - reflexivity.
  - apply plain_cons in Hp. destruct Hp as (H34 & H32 & H92 & _ & Hs).
    cbn [String.append json.scan_string]. cbv zeta.
    rewrite H34, H32, H92, (IH Hs). reflexivity.
Qed.

Lemma unquote_plain (s : string) (f : nat) :
  plain s = true -> (String.length s < f)%nat -> json.unquote f s = Some s.
Proof.
  revert f. induction s as [|c s IH]; intros f Hp Hf.
  - destruct f; [lia | reflexivity].
  - destruct f as [|f]; [lia|].
    apply plain_cons in Hp. destruct Hp as (H34 & H32 & H92 & H128 & Hs).
    cbn [json.unquote]. cbv zeta.
    rewrite H92, H34, H32, H128. cbn [orb].
    rewrite (IH f Hs) by (simpl in Hf; lia). reflexivity.
Qed.

(** X14.  A body [{"text":"<s>"}] decodes to the text [s] as it was
    written, for every [s] of ASCII bytes from the space on that holds no
    double quote and no backslash, however long. *)
Theorem Decode_plain_text (s : string) :
  plain s = true ->
  handler.Decode (dq "{'text':'" ++ s ++ dq "'}")
  = inr (handler.mkCreateJokeRequest s).
Proof.
  intros Hp. unfold handler.Decode.
  assert (H : json.scan_value 3 0 (dq "{'text':'" ++ s ++ dq "'}")
              = Some (json.Object [("text", json.Str s)], "")).
  { change (dq "'}") with (String (byte_of 34) "}").
    remember (s ++ String (byte_of 34) "}") as tail eqn:Htail.
    cbn -[json.unquote String.length].
    change (json.unquote (S (String.length "text")) "text")
      with (Some "text").
    cbn -[json.unquote String.length].
    rewrite Htail, (scan_string_plain s "}" Hp).
    rewrite (unquote_plain s _ Hp) by lia. reflexivity. }
  rewrite (first_value_adequate _ _ _ H). reflexivity.
Qed.

Lemma Decode_plain_text_witness :
  handler.Decode (dq "{'text':'" ++ "Why did the chicken cross the road?"
                  ++ dq "'}")
  = inr (handler.mkCreateJokeRequest "Why did the chicken cross the road?").
Proof. apply Decode_plain_text. reflexivity. Defined.

(** ** Deleting through the repository *)

Lemma delete_rows_length (id : Z) (t : list Joke) (j : Joke) :
  increasing (map ID t) -> repository.select_by_id id t = Some j ->
  List.length t = S (List.length (repository.delete_rows id t)).
Proof.
  unfold repository.select_by_id, repository.delete_rows.
  induction t as [|k t IH]; simpl; [discriminate|].
  intros [Hk Ht]. destruct (ID k =? id) eqn:E; simpl.
  - intros _. apply Z.eqb_eq in E. f_equal.
    change (filter (fun j0 => negb (ID j0 =? id)) t)
      with (repository.delete_rows id t).
    rewrite delete_rows_nothing; [reflexivity|].
    apply select_by_id_None. intros i Hi.
    specialize (Hk (ID i) (in_map ID _ _ Hi)). lia.
  - intros H. f_equal. now apply IH.
Qed.

(** X15.  What the repository's [DeleteJoke] does to an open table whose
    ids increase.  It succeeds exactly when the id is stored, and then
    the table has one row less; its error is never [ErrJokeNotFound] and
    comes with an unchanged table; afterwards the id is not stored, every
    other id selects the row it selected before, the ids still increase
    and [sqlite_sequence] is kept. *)
Theorem DeleteJoke_frame (w : World) (id : Z) :
  is_open w -> increasing (map ID (rows (db w))) ->
  let '(err, w1) := repository.DeleteJoke id w in
  let t := rows (db w) in
  let t1 := rows (db w1) in
  (err = None <-> repository.select_by_id id t <> None)
  /\ (forall e, err = Some e ->
        errors_Is e ErrJokeNotFound = false /\ db w1 = db w)
  /\ (err = None -> List.length t = S (List.length t1))
  /\ repository.select_by_id id t1 = None
  /\ (forall k, k <> id ->
        repository.select_by_id k t1 = repository.select_by_id k t)
  /\ increasing (map ID t1)
  /\ seq (db w1) = seq (db w).
Proof.
  intros Hopen Hinc. unfold is_open in Hopen.
  rewrite DeleteJoke_run, Hopen. cbv zeta. cbn [db set_db rows seq noted].
  pose proof (matching_zero id (rows (db w))) as Hm.
  destruct (repository.matching id (rows (db w)) =? 0) eqn:E.
  - assert (Hnone : repository.select_by_id id (rows (db w)) = None)
      by now apply Hm.
    rewrite (delete_rows_nothing _ _ Hnone).
    split; [split; [discriminate | congruence]|].
    split; [intros e [= <-]; split; [reflexivity | now apply db_eta]|].
    split; [discriminate|].
    repeat split; assumption || reflexivity.
  - destruct (repository.select_by_id id (rows (db w))) as [j|] eqn:Hsel.
    2:{ destruct Hm as [_ Hm]. specialize (Hm eq_refl). discriminate. }
    split; [split; [discriminate | reflexivity]|].
    split; [discriminate|].
    split; [intros _; now apply (delete_rows_length id _ j)|].
    split; [apply delete_rows_gone|].
    split; [intros k Hk; now apply delete_rows_others|].
    split; [now apply increasing_filter | reflexivity].
Qed.

Lemma DeleteJoke_frame_witness :
  let w :=
    snd (api.serve "secret"
           (request "POST" "/api/admin/joke" [("Admin-API-Key", "secret")]
              (dq "{'text':'knock knock'}"))
           world0) in
  let '(err, w1) := repository.DeleteJoke 1 w in
  let t := rows (db w) in
  let t1 := rows (db w1) in
  (err = None <-> repository.select_by_id 1 t <> None)
  /\ (forall e, err = Some e ->
        errors_Is e ErrJokeNotFound = false /\ db w1 = db w)
  /\ (err = None -> List.length t = S (List.length t1))
  /\ repository.select_by_id 1 t1 = None
  /\ (forall k, k <> 1 ->
        repository.select_by_id k t1 = repository.select_by_id k t)
  /\ increasing (map ID t1)
  /\ seq (db w1) = seq (db w).
Proof.
  refine (DeleteJoke_frame
            (snd (api.serve "secret"
                  (request "POST" "/api/admin/joke"
                     [("Admin-API-Key", "secret")]
                     (dq "{'text':'knock knock'}"))
                  world0))
            1 eq_refl _).
  vm_compute. split; [intros b [] | exact I].
Defined.

(** ** The gate and the routes *)





(** ** The next key *)

Lemma fold_max_le (t : list Joke) (m b : Z) :
  m <= b -> (forall j, In j t -> ID j <= b) ->
  fold_left (fun a k => Z.max a (ID k)) t m <= b.
Proof.
  revert m. induction t as [|k t IH]; intros m Hm Ht; simpl; [assumption|].
  apply IH.
  - specialize (Ht k (or_introl eq_refl)). lia.
  - intros j Hj. apply Ht. now right.
Qed.

Lemma new_rowid_next (d : DB) :
  db_wf d ->
  repository.new_rowid d
  = if seq d <? repository.MAX_ROWID then Some (seq d + 1) else None.
Proof.
  intros (_ & Hseq & _ & Hrows). unfold repository.new_rowid.
  assert (Hlast : match repository.last_rowid (rows d) with
                  | Some m => m <= seq d
                  | None => True
                  end).
  { unfold repository.last_rowid. destruct (rows d) as [|k t]; [exact I|].
    apply fold_max_le.
    - apply (Hrows k). now left.
    - intros j Hj. apply (Hrows j). now right. }
  destruct (seq d <? repository.MAX_ROWID) eqn:E.
  - apply Z.ltb_lt in E.
    destruct (repository.last_rowid (rows d)) as [m|].
    + destruct (repository.MAX_ROWID <=? m) eqn:F1;
        [apply Z.leb_le in F1; lia|].
      destruct (repository.MAX_ROWID <=? seq d) eqn:F2;
        [apply Z.leb_le in F2; lia|].
      simpl. f_equal. lia.
    + destruct (repository.MAX_ROWID <=? seq d) eqn:F2;
        [apply Z.leb_le in F2; lia|].
      simpl. f_equal. lia.
  - apply Z.ltb_ge in E.
    assert (F2 : (repository.MAX_ROWID <=? seq d) = true)
      by (apply Z.leb_le; lia).
    rewrite F2, orb_true_r. reflexivity.
Qed.

Lemma select_by_id_app (id : Z) (t : list Joke) (j : Joke) :
  ID j <> id ->
  repository.select_by_id id (t ++ [j]) = repository.select_by_id id t.
Proof.
  intros Hj. unfold repository.select_by_id.
  induction t as [|k t IH]; simpl.
  - apply Z.eqb_neq in Hj. now rewrite Hj.
  - destruct (ID k =? id); [reflexivity | exact IH].
Qed.

(** X18.  In every reachable state the repository's [CreateJoke] hands
    out the key after [sqlite_sequence], so the keys of a database are 1,
    2, 3, ... in the order of the creations, whatever was deleted in
    between.  It appends one row, with the text of its argument and two
    successive clock readings (the [ID] and the timestamps of the
    argument are not read), and every other key selects what it selected
    before.  It fails, with the table unchanged, only when the key space
    is used up. *)
Theorem keys_are_consecutive (w : World) (joke : Joke) :
  reachable w ->
  let '(res, w1) := repository.CreateJoke joke w in
  if seq (db w) <? repository.MAX_ROWID then
    let id := seq (db w) + 1 in
    res = inr id
    /\ rows (db w1)
       = (rows (db w)
          ++ [mkJoke id (Text joke) (wall w (tick w))
                     (wall w (S (tick w)))])%list
    /\ seq (db w1) = id
    /\ (forall k, k <> id ->
          repository.select_by_id k (rows (db w1))
          = repository.select_by_id k (rows (db w)))
  else
    res = inl (Wrapf "error creating joke" (Sentinel sqlite_FULL))
    /\ db w1 = db w.
Proof.
  intros Hr. pose proof (reachable_wf w Hr) as Hwf.
  rewrite CreateJoke_run. cbv zeta.
  rewrite (new_rowid_next _ Hwf).
  destruct Hwf as (Hopen & _). rewrite Hopen.
  destruct (seq (db w) <? repository.MAX_ROWID).
  - cbn [db set_db rows seq].
    repeat split. intros k Hk. apply select_by_id_app. simpl. congruence.
  - split; reflexivity.
Qed.

Lemma keys_are_consecutive_witness :
  let key := [("Admin-API-Key", "secret")] in
  let w0 :=
    snd (api.serve "secret"
           (request "POST" "/api/admin/joke" key (dq "{'text':'knock knock'}"))
           world0) in
  let w :=
    snd (api.serve "secret" (request "DELETE" "/api/admin/joke/1" key "")
           w0) in
  let joke := mkJoke 0 "who is there" 0 0 in
  let '(res, w1) := repository.CreateJoke joke w in
  if seq (db w) <? repository.MAX_ROWID then
    let id := seq (db w) + 1 in
    res = inr id
    /\ rows (db w1)
       = (rows (db w)
          ++ [mkJoke id (Text joke) (wall w (tick w))
                     (wall w (S (tick w)))])%list
    /\ seq (db w1) = id
    /\ (forall k, k <> id ->
          repository.select_by_id k (rows (db w1))
          = repository.select_by_id k (rows (db w)))
  else
    res = inl (Wrapf "error creating joke" (Sentinel sqlite_FULL))
    /\ db w1 = db w.
Proof.
  apply (keys_are_consecutive
           (snd (api.serve "secret"
                   (request "DELETE" "/api/admin/joke/1"
                      [("Admin-API-Key", "secret")] "")
                   (snd (api.serve "secret"
                           (request "POST" "/api/admin/joke"
                              [("Admin-API-Key", "secret")]
                              (dq "{'text':'knock knock'}"))
                           world0))))
           (mkJoke 0 "who is there" 0 0)).
  apply reach_serve, reach_serve, reach_start.
Defined.

(** ** The creation time *)

(** X19.  The creation time of a joke never changes: if an id of a
    reachable state selects a row then, whatever requests are served
    afterwards, the id selects nothing or a row with the same creation
    time.  Updates keep the column, and a key is not given to a second
    row. *)
Theorem creation_time_is_kept (w w' : World) (id : Z) (j j' : Joke) :
  reachable w -> later w w' ->
  repository.select_by_id id (rows (db w)) = Some j ->
  repository.select_by_id id (rows (db w')) = Some j' ->
  CreatedAt j' = CreatedAt j /\ ID j' = id.
Proof.
  intros Hr Hl Hj Hj'.
  destruct (reachable_wf w Hr) as (_ & _ & _ & Hrows).
  destruct (select_by_id_Some _ _ _ Hj) as [Hin Hid].
  destruct (Hrows j Hin) as [Hb _].
  assert (HP : id <= seq (db w')
               /\ forall k,
                    repository.select_by_id id (rows (db w')) = Some k ->
                    CreatedAt k = CreatedAt j).
  { refine (later_invariant
              (fun d => id <= seq d
                        /\ forall k,
                             repository.select_by_id id (rows d) = Some k ->
                             CreatedAt k = CreatedAt j)
              _ _ _ _ _ Hl _); simpl.
    - intros d i text c u _ Hi [Hle Hd].
      destruct (new_rowid_fresh _ _ Hi) as (_ & Hlo & _).
      split; [lia|]. intros k. rewrite select_by_id_app by (simpl; lia).
      apply Hd.
    - intros d i text now _ [Hle Hd]. split; [assumption|]. intros k.
      destruct (Z.eq_dec id i) as [->|Hne].
      + destruct (repository.select_by_id i (rows d)) as [k0|] eqn:E.
        * rewrite (select_by_id_updated _ _ _ _ _ E). intros [= <-].
          simpl. now apply Hd.
        * rewrite (update_rows_nothing _ _ _ _ E), E. discriminate.
      + rewrite update_rows_others by assumption. apply Hd.
    - intros d i _ [Hle Hd]. split; [assumption|]. intros k.
      destruct (Z.eq_dec id i) as [->|Hne].
      + rewrite delete_rows_gone. discriminate.
      + rewrite delete_rows_others by assumption. apply Hd.
    - split; [lia|]. intros k. rewrite Hj. now intros [= <-]. }
  split; [now apply (proj2 HP) | now apply (select_by_id_Some _ _ _ Hj')].
Qed.

Lemma creation_time_is_kept_witness :
  let key := [("Admin-API-Key", "secret")] in
  let w :=
    snd (api.serve "secret"
           (request "POST" "/api/admin/joke" key (dq "{'text':'knock knock'}"))
           world0) in
  let w' :=
    snd (api.serve "secret"
           (request "PUT" "/api/admin/joke/1" key
              (dq "{'text':'who is there'}")) w) in
  CreatedAt (mkJoke 1 "who is there" (clock0 0) (clock0 2))
  = CreatedAt (mkJoke 1 "knock knock" (clock0 0) (clock0 1))
  /\ ID (mkJoke 1 "who is there" (clock0 0) (clock0 2)) = 1.
Proof.
  set (key := [("Admin-API-Key", "secret")]).
  set (w := snd (api.serve "secret"
                   (request "POST" "/api/admin/joke" key
                      (dq "{'text':'knock knock'}"))
                   world0)).
  set (r := request "PUT" "/api/admin/joke/1" key
              (dq "{'text':'who is there'}")).
  exact (creation_time_is_kept w (snd (api.serve "secret" r w)) 1
           (mkJoke 1 "knock knock" (clock0 0) (clock0 1))
           (mkJoke 1 "who is there" (clock0 0) (clock0 2))
           (reach_serve _ _ _ (reach_start _ _))
           (later_serve w "secret" r w (later_now w))
           eq_refl eq_refl).
Defined.
